(** * np_rw_buffer: the circular index resolver [get_indexes]

    The repository holds two C extension functions named [get_indexes]:

    - [src/src/circular_indexes.c]: returns a slice when the window fits
      below [maxsize] and an int32 array of wrapped indexes otherwise
      (module [CircularIndexes] below);
    - [src/np_rw_buffer/_circular_indexes.c]: builds a tuple
      (module [NpRwBuffer] below).

    Python integers are modelled as [Z]; C [int] and [long long] values as
    [Z] with the two's-complement wrap-around written out. *)

From stdpp Require Import prelude strings.

Local Open Scope Z_scope.

(** ** Machine integers *)

(** A [bits]-wide two's-complement reading of an exact integer. *)
Definition wrap_signed (bits z : Z) : Z :=
  (z + 2 ^ (bits - 1)) `mod` 2 ^ bits - 2 ^ (bits - 1).

(** C [int] (32 bits). *)
Module Int32.
Definition min_signed : Z := - 2 ^ 31.
Definition max_signed : Z := 2 ^ 31 - 1.
Definition modulus : Z := 2 ^ 32.

Definition in_range (z : Z) : Prop := min_signed <= z <= max_signed.

(** What an [int] holds after an out-of-range result is stored in it. *)
Definition wrap (z : Z) : Z := wrap_signed 32 z.

(** [a + b] on [int]. *)
Definition add (a b : Z) : Z := wrap (a + b).

(** [a % b] on [int]: the remainder of the division truncated towards
    zero.  Division by zero, and [INT_MIN % -1] whose quotient is not
    representable, are undefined: [None]. *)
Definition rem (a b : Z) : option Z :=
  if b =? 0 then None
  else if (a =? min_signed) && (b =? -1) then None
  else Some (Z.rem a b).
End Int32.

(** C [long long] (64 bits). *)
Module Int64.
Definition min_signed : Z := - 2 ^ 63.
Definition max_signed : Z := 2 ^ 63 - 1.

Definition wrap (z : Z) : Z := wrap_signed 64 z.
Definition add (a b : Z) : Z := wrap (a + b).

Definition rem (a b : Z) : option Z :=
  if b =? 0 then None
  else if (a =? min_signed) && (b =? -1) then None
  else Some (Z.rem a b).
End Int64.

(** ** src/src/circular_indexes.c *)

Module CircularIndexes.

(** What a call hands back to the interpreter. *)
Inductive result : Type :=
| Slice (start stop step : Z)   (* PySlice_New(start, stop, step) *)
| Array (data : list Z)         (* one-dimensional NPY_INT32 array *)
| ValueError (msg : string)     (* NULL, with ValueError set *)
| Fault.                        (* undefined behaviour of [%] *)

(** Format unit [I] of [PyArg_ParseTupleAndKeywords]: the Python integer
    is reduced to an [unsigned int] without overflow checking; the
    receiving variable is declared [int], so the 32 bits are read back
    as a signed value. *)
Definition parse_I (arg : Z) : Z := Int32.wrap (arg `mod` Int32.modulus).

(** [PyArray_SimpleNew(1, dims, NPY_INT32)]: a fresh array of [n] cells,
    [None] standing for the NULL result.  The cells of the real array are
    uninitialised; here they read 0 (every cell is overwritten before the
    array is returned, see [fill_loop_any_buffer]).  Exhaustion of memory
    is outside the model, so the only failure left is a negative
    dimension. *)
Definition PyArray_SimpleNew (n : Z) : option (list Z) :=
  if n <? 0 then None else Some (replicate (Z.to_nat n) 0).

(** The right-hand side [(start + i) % maxsize] of the assignment in the
    loop, on [int]. *)
Definition cell (start maxsize i : Z) : option Z :=
  Int32.rem (Int32.add start i) maxsize.

(** The loop [for(i=0; i < length; i++) data[i] = (start + i) % maxsize;]
    entered at index [i] with [todo] iterations left
    ([todo = length - i]).  The store is always inside the array, which
    has [length] cells. *)
Fixpoint fill_loop (start maxsize : Z) (todo : nat) (i : Z) (data : list Z)
  : option (list Z) :=
  match todo with
  | O => Some data
  | S todo' =>
      match cell start maxsize i with
      | None => None
      | Some v =>
          fill_loop start maxsize todo' (Int32.add i 1)
            (<[Z.to_nat i := v]> data)
      end
  end.

Definition length_error : string :=
  "The given length must be greater than or equal to 0.".
Definition alloc_error : string :=
  "Cannot create the array with the size of the given length.".

(** The body of [get_indexes] once the three [int] locals are set. *)
Definition get_indexes_body (start length maxsize : Z) : result :=
  if length <? 0 then ValueError length_error
  else
    let end_ := Int32.add start length in
    if end_ <=? maxsize then Slice start end_ 1
    else
      match PyArray_SimpleNew length with
      | None => ValueError alloc_error
      | Some arr =>
          match fill_loop start maxsize (Z.to_nat length) 0 arr with
          | None => Fault
          | Some data => Array data
          end
      end.

(** [get_indexes(start, length, maxsize)] called with three Python
    integers (other arguments make the parser fail before the body runs
    and are not modelled). *)
Definition get_indexes (start length maxsize : Z) : result :=
  get_indexes_body (parse_I start) (parse_I length) (parse_I maxsize).

(** *** The same function as a relation

    [returns start length maxsize r] reads the body statement by
    statement: one rule per [return], the loop with its test
    [i < length] as written, and the new array holding whatever the
    allocator left in it. *)

Inductive loop_runs (start length maxsize : Z)
  : Z → list Z → option (list Z) → Prop :=
| loop_exit i data :
    ¬ i < length →
    loop_runs start length maxsize i data (Some data)
| loop_undefined i data :
    i < length →
    cell start maxsize i = None →
    loop_runs start length maxsize i data None
| loop_iterate i data v out :
    i < length →
    cell start maxsize i = Some v →
    loop_runs start length maxsize (Int32.add i 1)
      (<[Z.to_nat i := v]> data) out →
    loop_runs start length maxsize i data out.

(** A successful [PyArray_SimpleNew]: [n] cells of unspecified content. *)
Definition new_array (n : Z) (arr : list Z) : Prop :=
  0 <= n ∧ Datatypes.length arr = Z.to_nat n.

Inductive returns (start length maxsize : Z) : result → Prop :=
| return_length_error :
    length < 0 →
    returns start length maxsize (ValueError length_error)
| return_slice :
    ¬ length < 0 →
    Int32.add start length <= maxsize →
    returns start length maxsize (Slice start (Int32.add start length) 1)
| return_alloc_error :
    ¬ length < 0 →
    ¬ Int32.add start length <= maxsize →
    (∀ arr, ¬ new_array length arr) →
    returns start length maxsize (ValueError alloc_error)
| return_array arr data :
    ¬ length < 0 →
    ¬ Int32.add start length <= maxsize →
    new_array length arr →
    loop_runs start length maxsize 0 arr (Some data) →
    returns start length maxsize (Array data)
| return_fault arr :
    ¬ length < 0 →
    ¬ Int32.add start length <= maxsize →
    new_array length arr →
    loop_runs start length maxsize 0 arr None →
    returns start length maxsize Fault.

(** A call with Python integers, as a relation. *)
Definition get_indexes_returns (start length maxsize : Z) (r : result)
  : Prop :=
  returns (parse_I start) (parse_I length) (parse_I maxsize) r.

(** *** What a result denotes

    The physical positions a result addresses, in order: a slice with
    step 1 is the half-open range [[start, stop)] (for bounds between 0
    and the size of the indexed array this is what Python's slicing
    selects), an array is its content.  Failed calls address nothing. *)
Definition positions (r : result) : option (list Z) :=
  match r with
  | Slice start stop step =>
      if step =? 1 then Some (seqZ start (stop - start)) else None
  | Array data => Some data
  | ValueError _ | Fault => None
  end.

Definition is_slice (r : result) : bool :=
  match r with Slice _ _ _ => true | _ => false end.

(** A slice or an array, as opposed to a failure. *)
Definition is_output (r : result) : bool :=
  match r with Slice _ _ _ | Array _ => true | _ => false end.

End CircularIndexes.

(** ** src/np_rw_buffer/_circular_indexes.c *)

Module NpRwBuffer.

Inductive exception : Type := OverflowError | SystemError | MemoryError.

(** A tuple slot is a [PyObject *]: NULL ([None]) until an integer
    object is stored in it. *)
Inductive result : Type :=
| Tuple (items : list (option Z))
| Null (exc : exception) (printed : string)  (* NULL, after a printf *)
| Fault.                                     (* undefined behaviour of [%] *)

(** What a call finds and does not choose: the bytes that its three
    [long long] locals occupy before anything is stored in them (of which
    the upper four of each survive the parse, see [store_int]), and
    whether the allocator has room for a tuple of a given size. *)
Record frame : Type := {
  start_residue : Z;
  length_residue : Z;
  maxsize_residue : Z;
  tuple_fits : Z → bool
}.

(** Format unit [i] of [PyArg_ParseTuple]: a C [int], with OverflowError
    when the Python integer does not fit. *)
Definition parse_i (arg : Z) : option Z :=
  if (Int32.min_signed <=? arg) && (arg <=? Int32.max_signed)
  then Some arg else None.

(** The locals are declared [long long], but format [iii] stores a
    four-byte [int] through each address.  On a little-endian machine the
    store replaces the low half of the local and leaves the upper half as
    it was: the local then holds [residue] in its upper 32 bits and the
    bits of [v] in its lower 32 bits, so a negative [v] is not
    sign-extended. *)
Definition store_int (residue v : Z) : Z :=
  Int64.wrap
    ((residue `mod` Int32.modulus) * Int32.modulus + v `mod` Int32.modulus).

(** [PyTuple_New(n)]: [n] NULL slots.  A negative size is a bad internal
    call (SystemError); a size the allocator has no room for is a
    MemoryError. *)
Definition PyTuple_New (fits : Z → bool) (n : Z)
  : exception + list (option Z) :=
  if n <? 0 then inl SystemError
  else if fits n then inr (replicate (Z.to_nat n) None)
  else inl MemoryError.

(** The loop
    [for(i=0; i < length; i++)
       PyTuple_SetItem(result, i, PyLong_FromLongLong((start % maxsize) + i));]
    entered at index [i] with [todo] iterations left. *)
Fixpoint set_loop (start maxsize : Z) (todo : nat) (i : Z)
    (items : list (option Z)) : option (list (option Z)) :=
  match todo with
  | O => Some items
  | S todo' =>
      match Int64.rem start maxsize with
      | None => None
      | Some r =>
          set_loop start maxsize todo' (Int64.add i 1)
            (<[Z.to_nat i := Some (Int64.add r i)]> items)
      end
  end.

(** The body of [get_indexes] over the values its [long long] locals
    hold.  No call in the loop sets an exception in this model, so the
    final [PyErr_Occurred()] test takes its [else] branch. *)
Definition get_indexes_body (fits : Z → bool) (start length maxsize : Z)
  : result :=
  match PyTuple_New fits length with
  | inl exc => Null exc "here: 2"
  | inr result =>
      match set_loop start maxsize (Z.to_nat length) 0 result with
      | None => Fault
      | Some items => Tuple items
      end
  end.

(** [get_indexes(start, length, maxsize)] called with Python integers in
    the frame [f]. *)
Definition get_indexes (f : frame) (start length maxsize : Z) : result :=
  match parse_i start, parse_i length, parse_i maxsize with
  | Some start', Some length', Some maxsize' =>
      get_indexes_body (tuple_fits f)
        (store_int (start_residue f) start')
        (store_int (length_residue f) length')
        (store_int (maxsize_residue f) maxsize')
  | _, _, _ => Null OverflowError "err: 1"
  end.

Definition positions (r : result) : option (list Z) :=
  match r with
  | Tuple items => mapM id items
  | Null _ _ | Fault => None
  end.

(** The frame of a lucky call: the three locals lie on zeroed stack and
    the allocator grants any tuple of up to [room] slots. *)
Definition clear_frame (room : Z) : frame :=
  {| start_residue := 0; length_residue := 0; maxsize_residue := 0;
     tuple_fits := λ n, n <=? room |}.

End NpRwBuffer.

(** ** src/src/circular_indexes.c in the interpreter *)

(** [CircularIndexes.get_indexes] gives a failed call as a value.  In the
    source a failure is a NULL return after [PyErr_SetString], which
    writes the error indicator of the running interpreter.  This module
    reads the same body with that state passed through it. *)
Module Interpreter.
Import CircularIndexes.

Inductive exception : Type := PyExc_ValueError.

(** The interpreter state the body mentions: the error indicator. *)
Record state : Type := { error_indicator : option (exception * string) }.

Definition PyErr_SetString (exc : exception) (msg : string) (s : state)
  : state :=
  {| error_indicator := Some (exc, msg) |}.

Inductive object : Type :=
| PySlice (start stop step : Z)
| PyArray (data : list Z).

(** A call returns a pointer ([None] is NULL) and leaves a state, or
    runs into the undefined [%]. *)
Inductive outcome : Type :=
| Returns (value : option object) (after : state)
| Undefined.

Definition get_indexes (s : state) (start length maxsize : Z) : outcome :=
  let start := parse_I start in
  let length := parse_I length in
  let maxsize := parse_I maxsize in
  if length <? 0
  then Returns None (PyErr_SetString PyExc_ValueError length_error s)
  else
    let end_ := Int32.add start length in
    if end_ <=? maxsize then Returns (Some (PySlice start end_ 1)) s
    else
      match PyArray_SimpleNew length with
      | None => Returns None (PyErr_SetString PyExc_ValueError alloc_error s)
      | Some arr =>
          match fill_loop start maxsize (Z.to_nat length) 0 arr with
          | None => Undefined
          | Some data => Returns (Some (PyArray data)) s
          end
      end.




End Interpreter.

(** ** The resolver as the specification words it *)

(** [effective_start = start mod capacity], the non-negative modulo. *)
Definition effective_start (start capacity : Z) : Z := start `mod` capacity.

(** The positions [(start + i) mod capacity] for [i] in [[0, length)]. *)
Definition window (start length capacity : Z) : list Z :=
  (λ i, (start + i) `mod` capacity) <$> seqZ 0 length.

(** The properties the specification states of [resolve], read on
    [CircularIndexes.get_indexes] at one input. *)
Module Spec.
Import CircularIndexes.

(** Section 4.1, steps 1 to 3: the start is reduced first, and the
    contiguous range is returned whenever the reduced window fits. *)
Definition fast_path (start length capacity : Z) : Prop :=
  0 <= start → 0 <= length → 0 < capacity →
  0 <= effective_start start capacity < capacity ∧
  (effective_start start capacity + length <= capacity →
   get_indexes start length capacity =
     Slice (effective_start start capacity)
       (effective_start start capacity + length) 1).

(** Section 4.1, step 4: a wrapping window is returned as the sequence
    of [length] positions [(effective_start + i) mod capacity]. *)
Definition wrap_path (start length capacity : Z) : Prop :=
  0 <= start → 0 <= length → 0 < capacity →
  capacity < effective_start start capacity + length →
  get_indexes start length capacity =
    Array (window (effective_start start capacity) length capacity).

(** Section 8, round trip: either output form denotes the window. *)
Definition round_trip (start length capacity : Z) : Prop :=
  0 <= start → 0 <= length → 0 < capacity →
  positions (get_indexes start length capacity)
    = Some (window start length capacity).

(** Sections 4.1 and 7: a negative length or a non-positive capacity
    fails with the invalid-argument error, and nothing else comes out. *)
Definition rejects_invalid (start length capacity : Z) : Prop :=
  length < 0 ∨ capacity <= 0 →
  ∃ msg, get_indexes start length capacity = ValueError msg.

(** Section 8, bounds: sequence elements and the range begin lie in
    [[0, capacity)], the range end is at most [capacity]. *)
Definition in_bounds (start length capacity : Z) : Prop :=
  0 <= start → 0 <= length → 0 < capacity →
  match get_indexes start length capacity with
  | Slice begin stop _ => 0 <= begin < capacity ∧ stop <= capacity
  | Array data => Forall (λ v, 0 <= v < capacity) data
  | ValueError _ | Fault => True
  end.

(** Section 4.1, edge case [length == 0]: always the degenerate range at
    the reduced start. *)
Definition empty_window (start capacity : Z) : Prop :=
  0 <= start → 0 < capacity →
  get_indexes start 0 capacity =
    Slice (effective_start start capacity) (effective_start start capacity) 1.


(** The tuple implementation as it reads: for [length >= 0] and
    [maxsize <> 0] always a tuple of [length] items, the [i]-th being
    [(start % maxsize) + i]. *)
Definition tuple_always (f : NpRwBuffer.frame) (start length maxsize : Z)
  : Prop :=
  0 <= length → maxsize ≠ 0 →
  ∃ items,
    NpRwBuffer.get_indexes f start length maxsize = NpRwBuffer.Tuple items ∧
    Datatypes.length items = Z.to_nat length ∧
    ∀ i : nat, Z.of_nat i < length →
      items !! i = Some (Some (Z.rem start maxsize + Z.of_nat i)).
End Spec.

(** * Proofs *)

(** ** Machine integers *)

Ltac int_consts :=
  unfold Int32.in_range, Int32.add, Int32.wrap, Int32.min_signed,
    Int32.max_signed, Int32.modulus, Int64.add, Int64.wrap,
    Int64.min_signed, Int64.max_signed, wrap_signed in *;
  change (2 ^ (32 - 1)) with 2147483648 in *;
  change (2 ^ 32) with 4294967296 in *;
  change (2 ^ 31) with 2147483648 in *;
  change (2 ^ (64 - 1)) with 9223372036854775808 in *;
  change (2 ^ 64) with 18446744073709551616 in *;
  change (2 ^ 63) with 9223372036854775808 in *.

Ltac int_arith := int_consts; Z.div_mod_to_equations; lia.

(** Settles the comparisons of a body ([<?], [<=?]) that linear
    arithmetic decides from the context. *)
Ltac decide_tests :=
  repeat first
    [ rewrite (proj2 (Z.ltb_lt _ _)) by (int_consts; lia)
    | rewrite (proj2 (Z.ltb_ge _ _)) by (int_consts; lia)
    | rewrite (proj2 (Z.leb_le _ _)) by (int_consts; lia)
    | rewrite (proj2 (Z.leb_gt _ _)) by (int_consts; lia) ].

Lemma int32_wrap_id z : Int32.in_range z → Int32.wrap z = z.
Proof. intros; int_arith. Qed.

Lemma int32_wrap_in_range z : Int32.in_range (Int32.wrap z).
Proof. int_arith. Qed.

(** One overflow upwards: the stored value is the sum less [2^32]. *)
Lemma int32_wrap_high z :
  Int32.max_signed < z <= 2 * Int32.max_signed →
  Int32.wrap z = z - Int32.modulus.
Proof. intros; int_arith. Qed.

Lemma int32_add_id a b :
  Int32.in_range (a + b) → Int32.add a b = a + b.
Proof. apply int32_wrap_id. Qed.

Lemma int64_add_id a b :
  Int64.min_signed <= a + b <= Int64.max_signed → Int64.add a b = a + b.
Proof. intros; int_arith. Qed.

(** On non-negative operands C's [%] is the mathematical modulo. *)
Lemma int32_rem_mod a b :
  0 <= a → 0 < b → Int32.rem a b = Some (a `mod` b).
Proof.
  intros Ha Hb. unfold Int32.rem.
  destruct (Z.eqb_spec b 0) as [->|_]; [lia|].
  destruct (Z.eqb_spec b (-1)) as [->|_]; [lia|].
  rewrite andb_false_r. f_equal. apply Z.rem_mod_nonneg; lia.
Qed.

(** A partial map that succeeds on every element is a total map. *)
Lemma mapM_total {A B} (f : A → option B) (g : A → B) (l : list A) :
  Forall (λ x, f x = Some (g x)) l → mapM f l = Some (g <$> l).
Proof.
  intros Hall. apply mapM_Some_2, Forall2_fmap_r.
  by apply Forall_Forall2_diag.
Qed.

(** ** The window of the specification *)

Lemma window_length start length capacity :
  Datatypes.length (window start length capacity) = Z.to_nat length.
Proof. unfold window. by rewrite length_fmap, length_seqZ. Qed.

Lemma window_lookup start length capacity (i : nat) :
  Z.of_nat i < length →
  window start length capacity !! i
    = Some ((start + Z.of_nat i) `mod` capacity).
Proof.
  intros Hi. unfold window.
  by rewrite list_lookup_fmap, lookup_seqZ_lt.
Qed.

(** The window only depends on the start through [effective_start]. *)
Lemma window_effective_start start length capacity :
  window (effective_start start capacity) length capacity
    = window start length capacity.
Proof.
  unfold window, effective_start. apply list_fmap_ext. intros _ i _.
  by rewrite Zplus_mod_idemp_l.
Qed.

Lemma window_in_bounds start length capacity :
  0 < capacity → Forall (λ v, 0 <= v < capacity) (window start length capacity).
Proof.
  intros Hc. unfold window. apply Forall_fmap, Forall_seqZ. intros i _.
  simpl. apply Z.mod_pos_bound. lia.
Qed.

(** A range that ends at or below the capacity is the window. *)
Lemma seqZ_window start length capacity :
  0 <= start → start + length <= capacity →
  seqZ start length = window start length capacity.
Proof.
  intros Hs Hfit. unfold window.
  rewrite <- (Z.add_0_r start) at 1. rewrite <- fmap_add_seqZ.
  apply Forall_fmap_ext, Forall_seqZ. intros i Hi.
  symmetry. apply Z.mod_small. lia.
Qed.

(** ** Facts about src/src/circular_indexes.c *)

Module CircularIndexesFacts.
Import CircularIndexes.

Lemma parse_I_id z : Int32.in_range z → parse_I z = z.
Proof. unfold parse_I. intros; int_arith. Qed.

Lemma parse_I_in_range z : Int32.in_range (parse_I z).
Proof. apply int32_wrap_in_range. Qed.

Lemma parse_I_periodic z k : parse_I (z + k * Int32.modulus) = parse_I z.
Proof. unfold parse_I. by rewrite Z_mod_plus_full. Qed.

Section loop.
Variables start maxsize : Z.

(** Loop invariant in closed form: cells [i .. i+todo) are overwritten
    by the computed values, the rest of the buffer is untouched, and the
    loop stops at the first undefined [%]. *)
Lemma fill_loop_closed todo : ∀ i (data : list Z),
  0 <= i → i + Z.of_nat todo <= Int32.max_signed →
  (Z.to_nat i + todo ≤ Datatypes.length data)%nat →
  fill_loop start maxsize todo i data =
    (λ vs, take (Z.to_nat i) data ++ vs ++ drop (Z.to_nat i + todo) data)
      <$> mapM (cell start maxsize) (seqZ i (Z.of_nat todo)).
Proof.
  induction todo as [|todo IH]; intros i data Hi Hmax Hlen.
  - simpl. rewrite Nat.add_0_r. by rewrite take_drop.
  - rewrite seqZ_cons by lia. cbn [fill_loop mapM].
    destruct (cell start maxsize i) as [v|] eqn:Hcell; [|done].
    rewrite int32_add_id by (int_consts; lia).
    rewrite IH; [|lia|lia|rewrite length_insert; lia].
    replace (Z.pred (Z.of_nat (S todo))) with (Z.of_nat todo) by lia.
    replace (Z.succ i) with (i + 1) by lia.
    simpl. destruct (mapM _ _) as [vs|]; [|done]. simpl. f_equal.
    replace (Z.to_nat (i + 1)) with (S (Z.to_nat i)) by lia.
    rewrite (take_S_r _ _ v) by (apply list_lookup_insert_eq; lia).
    rewrite take_insert_ge by lia.
    rewrite drop_insert_lt by lia.
    rewrite <- app_assoc. simpl. by rewrite Nat.add_succ_r.
Qed.

Section runs.
Variable length : Z.
Hypothesis length_fits : length <= Int32.max_signed.

(** Started at index 0 on a buffer of exactly [length] cells, the loop
    leaves nothing of the initial content: uninitialised memory never
    reaches the caller. *)
Lemma fill_loop_any_buffer (data : list Z) :
  0 <= length → Datatypes.length data = Z.to_nat length →
  fill_loop start maxsize (Z.to_nat length) 0 data =
    mapM (cell start maxsize) (seqZ 0 length).
Proof.
  intros Hlen Hdata.
  rewrite fill_loop_closed; [|lia|lia|rewrite Hdata; simpl; lia].
  rewrite Z2Nat.id by lia. simpl.
  rewrite drop_ge by lia.
  destruct (mapM _ _) as [vs|]; [|done]. simpl. by rewrite app_nil_r.
Qed.

(** The functional loop computes what the relational loop derives. *)
Lemma loop_runs_fill_loop i data out :
  loop_runs start length maxsize i data out → 0 <= i →
  out = fill_loop start maxsize (Z.to_nat (length - i)) i data.
Proof.
  induction 1 as [i data Hge|i data Hlt Hrem|i data v out Hlt Hrem _ IH];
    intros Hi.
  - by replace (Z.to_nat (length - i)) with O by lia.
  - replace (Z.to_nat (length - i)) with (S (Z.to_nat (length - i - 1))) by lia.
    simpl. by rewrite Hrem.
  - replace (Z.to_nat (length - i)) with (S (Z.to_nat (length - i - 1))) by lia.
    simpl. rewrite Hrem.
    rewrite int32_add_id in IH |- * by (int_consts; lia).
    replace (length - i - 1) with (length - (i + 1)) by lia.
    apply IH; lia.
Qed.

(** Conversely the relational loop derives what the functional loop
    computes: the loop always comes to an end. *)
Lemma fill_loop_loop_runs todo : ∀ i data,
  0 <= i → Z.of_nat todo = length - i →
  loop_runs start length maxsize i data (fill_loop start maxsize todo i data).
Proof.
  induction todo as [|todo IH]; intros i data Hi Htodo; simpl.
  - apply loop_exit. lia.
  - destruct (cell start maxsize i) as [v|] eqn:Hrem.
    + apply loop_iterate with v; [lia|done|].
      apply IH; rewrite ?int32_add_id by (int_consts; lia); lia.
    + apply loop_undefined; [lia|done].
Qed.

(** A run of the loop on any new array ends as the loop of the model on
    the zero-filled one. *)
Lemma loop_runs_new_array arr out :
  new_array length arr → loop_runs start length maxsize 0 arr out →
  out = fill_loop start maxsize (Z.to_nat length) 0
          (replicate (Z.to_nat length) 0).
Proof.
  intros [Hlen Harr] Hloop.
  apply loop_runs_fill_loop in Hloop; [|lia].
  rewrite Z.sub_0_r in Hloop.
  rewrite fill_loop_any_buffer in Hloop by done.
  by rewrite fill_loop_any_buffer by (apply length_replicate || lia).
Qed.

(** Every run of the body ends in the result [get_indexes_body]
    computes, whatever the new array held. *)
Lemma returns_get_indexes_body r :
  returns start length maxsize r → r = get_indexes_body start length maxsize.
Proof.
  intros Hret. unfold get_indexes_body, PyArray_SimpleNew.
  destruct Hret as [Hneg|Hlen Hend|Hlen Hend Hnew|arr data Hlen Hend Harr Hloop
                   |arr Hlen Hend Harr Hloop]; decide_tests; try done.
  - destruct (Hnew (replicate (Z.to_nat length) 0)).
    split; [lia|apply length_replicate].
  - by rewrite <- (loop_runs_new_array _ _ Harr Hloop).
  - by rewrite <- (loop_runs_new_array _ _ Harr Hloop).
Qed.

(** And the result it computes is the end of a run. *)
Lemma get_indexes_body_returns :
  returns start length maxsize (get_indexes_body start length maxsize).
Proof.
  unfold get_indexes_body, PyArray_SimpleNew.
  destruct (Z.ltb_spec length 0) as [Hneg|Hlen]; [by constructor|].
  destruct (Z.leb_spec (Int32.add start length) maxsize) as [Hend|Hend];
    [constructor; lia|].
  pose proof (fill_loop_loop_runs (Z.to_nat length) 0
                (replicate (Z.to_nat length) 0)) as Hloop.
  destruct (fill_loop _ _ _ _ _) as [data|].
  - eapply return_array; [lia|lia| |apply Hloop; lia].
    split; [lia|apply length_replicate].
  - eapply return_fault; [lia|lia| |apply Hloop; lia].
    split; [lia|apply length_replicate].
Qed.

End runs.
End loop.

(** Without overflow and with a positive [maxsize], the cells computed
    by the loop are the window of the specification. *)
Lemma cells_window start length maxsize :
  0 <= start → 0 < maxsize → start + length <= Int32.max_signed →
  mapM (cell start maxsize) (seqZ 0 length)
    = Some (window start length maxsize).
Proof.
  intros Hs Hm Hsum. apply mapM_total, Forall_seqZ. intros i Hi.
  unfold cell. rewrite int32_add_id by (int_consts; lia).
  apply int32_rem_mod; lia.
Qed.

(** [get_indexes] on 32-bit inputs whose sum does not overflow. *)
Lemma get_indexes_exact start length maxsize :
  0 <= start → 0 <= length → 0 < maxsize <= Int32.max_signed →
  start + length <= Int32.max_signed →
  get_indexes start length maxsize =
    if start + length <=? maxsize then Slice start (start + length) 1
    else Array (window start length maxsize).
Proof.
  intros Hs Hl Hm Hsum. unfold get_indexes.
  rewrite !parse_I_id by (int_consts; lia).
  unfold get_indexes_body, PyArray_SimpleNew.
  rewrite (proj2 (Z.ltb_ge _ _)) by lia.
  rewrite int32_add_id by (int_consts; lia).
  destruct (_ <=? _); [done|].
  rewrite fill_loop_any_buffer by (apply length_replicate || lia).
  by rewrite cells_window by lia.
Qed.

End CircularIndexesFacts.

(** ** Facts about src/np_rw_buffer/_circular_indexes.c *)

Module NpRwBufferFacts.
Import NpRwBuffer.

Lemma parse_i_in_range z : Int32.in_range z → parse_i z = Some z.
Proof.
  intros [Hlo Hhi]. unfold parse_i.
  by rewrite (proj2 (Z.leb_le _ _) Hlo), (proj2 (Z.leb_le _ _) Hhi).
Qed.

Lemma parse_i_out_of_range z : ¬ Int32.in_range z → parse_i z = None.
Proof.
  intros Hout. unfold parse_i.
  destruct (Z.leb_spec Int32.min_signed z), (Z.leb_spec z Int32.max_signed);
    try done.
  destruct Hout. by split.
Qed.

Lemma in_range_dec z : Int32.in_range z ∨ ¬ Int32.in_range z.
Proof. unfold Int32.in_range. lia. Qed.

(** What a local holds after the store. *)
Lemma store_int_fits residue v :
  Int64.min_signed <= store_int residue v <= Int64.max_signed.
Proof. unfold store_int. int_arith. Qed.

Lemma store_int_clear v :
  0 <= v <= Int32.max_signed → store_int 0 v = v.
Proof. intros. unfold store_int. int_arith. Qed.

(** Over a zero upper half a negative [int] reads as [v + 2^32]. *)
Lemma store_int_negative v :
  Int32.min_signed <= v < 0 → store_int 0 v = v + Int32.modulus.
Proof. intros. unfold store_int. int_arith. Qed.

Lemma int64_rem_None a b :
  Int64.rem a b = None ↔ b = 0 ∨ (a = Int64.min_signed ∧ b = -1).
Proof.
  unfold Int64.rem.
  destruct (Z.eqb_spec b 0) as [Hb|Hb]; [split; [by left|done]|].
  destruct (Z.eqb_spec a Int64.min_signed) as [Ha|Ha],
    (Z.eqb_spec b (-1)) as [Hb1|Hb1]; simpl;
    (split; [try done; by right|]); try done; intros [?|[? ?]]; done.
Qed.

Lemma int64_rem_Some a b r : Int64.rem a b = Some r → r = Z.rem a b.
Proof.
  unfold Int64.rem. destruct (b =? 0); [done|].
  destruct (_ && _); [done|]. by intros [= <-].
Qed.

Section loop.
Variables start maxsize r : Z.
Hypothesis rem_defined : Int64.rem start maxsize = Some r.

(** Loop invariant in closed form: slots [i .. i+todo) receive the
    64-bit sum [r + k], where [r] is the remainder computed at every
    iteration. *)
Lemma set_loop_closed todo : ∀ i (items : list (option Z)),
  0 <= i → i + Z.of_nat todo <= Int64.max_signed →
  (Z.to_nat i + todo ≤ Datatypes.length items)%nat →
  set_loop start maxsize todo i items =
    Some (take (Z.to_nat i) items
            ++ ((λ k, Some (Int64.add r k)) <$> seqZ i (Z.of_nat todo))
            ++ drop (Z.to_nat i + todo) items).
Proof.
  induction todo as [|todo IH]; intros i items Hi Hmax Hlen.
  - simpl. rewrite Nat.add_0_r. by rewrite take_drop.
  - rewrite seqZ_cons by lia. cbn [set_loop]. rewrite rem_defined.
    rewrite (int64_add_id i 1) by (int_consts; lia).
    rewrite IH; [|lia|lia|rewrite length_insert; lia].
    replace (Z.pred (Z.of_nat (S todo))) with (Z.of_nat todo) by lia.
    replace (Z.succ i) with (i + 1) by lia.
    f_equal.
    replace (Z.to_nat (i + 1)) with (S (Z.to_nat i)) by lia.
    rewrite (take_S_r _ _ (Some (Int64.add r i)))
      by (apply list_lookup_insert_eq; lia).
    rewrite take_insert_ge by lia.
    rewrite drop_insert_lt by lia.
    rewrite <- app_assoc. simpl. by rewrite Nat.add_succ_r.
Qed.

(** The body, whatever its [long long] locals hold, once the tuple is
    allocated and the remainder is defined. *)
Lemma get_indexes_body_tuple fits length :
  0 <= length <= Int64.max_signed → fits length = true →
  get_indexes_body fits start length maxsize =
    Tuple ((λ k, Some (Int64.add r k)) <$> seqZ 0 length).
Proof.
  intros Hlen Hfits. unfold get_indexes_body, PyTuple_New. decide_tests.
  rewrite Hfits.
  rewrite set_loop_closed; [|lia|lia|rewrite length_replicate; simpl; lia].
  rewrite Z2Nat.id by lia. simpl.
  rewrite drop_ge by (rewrite length_replicate; lia).
  by rewrite app_nil_r.
Qed.

End loop.

Lemma get_indexes_body_negative fits start length maxsize :
  length < 0 →
  get_indexes_body fits start length maxsize = Null SystemError "here: 2".
Proof. intros Hl. unfold get_indexes_body, PyTuple_New. by decide_tests. Qed.

Lemma get_indexes_body_no_room fits start length maxsize :
  0 <= length → fits length = false →
  get_indexes_body fits start length maxsize = Null MemoryError "here: 2".
Proof.
  intros Hl Hfits. unfold get_indexes_body, PyTuple_New. decide_tests.
  by rewrite Hfits.
Qed.

Lemma get_indexes_body_empty fits start maxsize :
  fits 0 = true → get_indexes_body fits start 0 maxsize = Tuple [].
Proof.
  intros Hfits. unfold get_indexes_body, PyTuple_New. simpl.
  by rewrite Hfits.
Qed.

Lemma get_indexes_body_undefined fits start length maxsize :
  0 < length → fits length = true → Int64.rem start maxsize = None →
  get_indexes_body fits start length maxsize = Fault.
Proof.
  intros Hl Hfits Hrem. unfold get_indexes_body, PyTuple_New. decide_tests.
  rewrite Hfits.
  destruct (Z.to_nat length) as [|n] eqn:Hn; [lia|]. simpl. by rewrite Hrem.
Qed.

Lemma get_indexes_in_range f start length maxsize :
  Int32.in_range start → Int32.in_range length → Int32.in_range maxsize →
  get_indexes f start length maxsize =
    get_indexes_body (tuple_fits f)
      (store_int (start_residue f) start)
      (store_int (length_residue f) length)
      (store_int (maxsize_residue f) maxsize).
Proof.
  intros Hs Hl Hm. unfold get_indexes.
  by rewrite !parse_i_in_range.
Qed.

Lemma get_indexes_overflow f start length maxsize :
  ¬ (Int32.in_range start ∧ Int32.in_range length ∧ Int32.in_range maxsize) →
  get_indexes f start length maxsize = Null OverflowError "err: 1".
Proof.
  intros Hout. unfold get_indexes.
  destruct (in_range_dec start) as [Hs|Hs];
    [|by rewrite (parse_i_out_of_range start)].
  destruct (in_range_dec length) as [Hl|Hl];
    [|rewrite (parse_i_out_of_range length) by done; by destruct (parse_i start)].
  destruct (in_range_dec maxsize) as [Hm|Hm]; [by destruct Hout|].
  rewrite (parse_i_out_of_range maxsize) by done.
  by destruct (parse_i start), (parse_i length).
Qed.

(** The items of a returned tuple, read as positions. *)
Lemma positions_tuple (g : Z → Z) (l : list Z) :
  positions (Tuple ((λ i, Some (g i)) <$> l)) = Some (g <$> l).
Proof.
  simpl. apply mapM_Some_2, Forall2_fmap, Forall_Forall2_diag, Forall_forall.
  by intros.
Qed.

(** Whatever the locals hold, the positions of a returned tuple are
    none at all or a run [r, r+1, ...] of 64-bit sums. *)
Lemma get_indexes_body_positions fits start length maxsize ps :
  length <= Int64.max_signed →
  positions (get_indexes_body fits start length maxsize) = Some ps →
  ps = [] ∨
  ∃ r, Int64.rem start maxsize = Some r ∧ ps = Int64.add r <$> seqZ 0 length.
Proof.
  intros Hmax Hps.
  destruct (Z.ltb_spec length 0) as [Hneg|Hlen].
  { by rewrite get_indexes_body_negative in Hps. }
  destruct (fits length) eqn:Hfits;
    [|by rewrite get_indexes_body_no_room in Hps].
  destruct (Int64.rem start maxsize) as [r|] eqn:Hrem.
  - right. exists r. split; [done|].
    rewrite (get_indexes_body_tuple _ _ _ Hrem) in Hps by done.
    rewrite positions_tuple in Hps. by injection Hps.
  - left. destruct (decide (length = 0)) as [->|].
    + rewrite get_indexes_body_empty in Hps by done. simpl in Hps.
      by injection Hps.
    + by rewrite get_indexes_body_undefined in Hps by (done || lia).
Qed.

End NpRwBufferFacts.

(** ** The contiguous path *)

(** C1, as the specification states it, fails: [get_indexes 12 3 10]
    tests the unreduced [12 + 3] against 10 and builds the array
    [2, 3, 4], although the reduced window [2 + 3 <= 10] fits. *)
Lemma fast_path_unreduced_start : ¬ Spec.fast_path 12 3 10.
Proof.
  unfold Spec.fast_path, effective_start. intros H.
  destruct H as [_ H]; [lia..|].
  specialize (H ltac:(vm_compute; discriminate)).
  vm_compute in H. discriminate.
Qed.

(** C1, amended: on 32-bit inputs [start >= 0], [length >= 0],
    [0 < capacity] with [start + length] below [2^31], the start is not
    reduced before the test.  The slice [(start, start + length, 1)] is
    returned exactly when [start + length <= capacity]; there [start] is its
    own reduction unless [start = capacity].  When [start + length] exceeds
    [capacity] the result is the array of wrapped indexes, even if the
    reduced window would fit. *)
Theorem fast_path_raw_start start length capacity :
  0 <= start → 0 <= length → 0 < capacity <= Int32.max_signed →
  start + length <= Int32.max_signed →
  (start + length <= capacity →
   CircularIndexes.get_indexes start length capacity
     = CircularIndexes.Slice start (start + length) 1 ∧
   (start < capacity → effective_start start capacity = start)) ∧
  (capacity < start + length →
   CircularIndexes.get_indexes start length capacity
     = CircularIndexes.Array (window start length capacity)).
Proof.
  intros Hs Hl Hc Hsum.
  rewrite CircularIndexesFacts.get_indexes_exact by done.
  split; intros Hfit; decide_tests; [|done].
  split; [done|]. intros Hlt. unfold effective_start. apply Z.mod_small. lia.
Qed.

Lemma fast_path_raw_start_witness :
  CircularIndexes.get_indexes 2 3 10 = CircularIndexes.Slice 2 5 1 ∧
  CircularIndexes.get_indexes 12 3 10 = CircularIndexes.Array [2; 3; 4].
Proof.
  split.
  - apply (fast_path_raw_start 2 3 10); [lia|lia|int_consts; lia..|lia].
  - apply (fast_path_raw_start 12 3 10); [lia|lia|int_consts; lia..|lia].
Defined.

(** ** The wrapping path *)

(** C2, as the specification states it, fails where the 32-bit sum
    overflows: for [start = 2^31 - 1], [length = 5], [capacity = 10] the
    reduced window [7 + 5] wraps, but [end] is stored as [-2147483644],
    the test [end <= maxsize] succeeds and a slice is returned. *)
Lemma wrap_path_overflow : ¬ Spec.wrap_path 2147483647 5 10.
Proof.
  unfold Spec.wrap_path, effective_start. intros H.
  specialize (H ltac:(lia) ltac:(lia) ltac:(lia) ltac:(vm_compute; reflexivity)).
  vm_compute in H. discriminate.
Qed.

(** C2, amended: on 32-bit inputs [start >= 0], [length >= 0],
    [0 < capacity] with [start + length] below [2^31], a window that wraps
    ([effective_start + length > capacity]) is returned as an array of
    exactly [length] elements whose [i]-th element is
    [(effective_start + i) mod capacity]; [get_indexes 8 5 10] is
    [8, 9, 0, 1, 2]. *)
Theorem wrap_path_sequence :
  (∀ start length capacity,
     0 <= start → 0 <= length → 0 < capacity <= Int32.max_signed →
     start + length <= Int32.max_signed →
     capacity < effective_start start capacity + length →
     ∃ data,
       CircularIndexes.get_indexes start length capacity
         = CircularIndexes.Array data ∧
       Datatypes.length data = Z.to_nat length ∧
       ∀ i : nat, Z.of_nat i < length →
         data !! i
           = Some ((effective_start start capacity + Z.of_nat i) `mod` capacity)) ∧
  CircularIndexes.get_indexes 8 5 10 = CircularIndexes.Array [8; 9; 0; 1; 2].
Proof.
  split; [|reflexivity].
  intros start length capacity Hs Hl Hc Hsum Hwrap.
  assert (effective_start start capacity <= start) as Hle
    by (unfold effective_start; apply Z.mod_le; lia).
  exists (window (effective_start start capacity) length capacity).
  split; [|split].
  - rewrite CircularIndexesFacts.get_indexes_exact by done. decide_tests.
    by rewrite window_effective_start.
  - apply window_length.
  - intros i Hi. by apply window_lookup.
Qed.

Lemma wrap_path_sequence_witness :
  ∃ data,
    CircularIndexes.get_indexes 18 5 10 = CircularIndexes.Array data ∧
    Datatypes.length data = 5%nat ∧
    ∀ i : nat, Z.of_nat i < 5 → data !! i = Some ((8 + Z.of_nat i) `mod` 10).
Proof.
  apply (proj1 wrap_path_sequence 18 5 10);
    [lia|lia|int_consts; lia|int_consts; lia|vm_compute; reflexivity].
Defined.

(** ** Round trip *)

(** C3, as the specification states it, fails on the same overflow: the
    slice [(2147483647, -2147483644, 1)] denotes no position at all, while
    the window is [7, 8, 9, 0, 1]. *)
Lemma round_trip_overflow : ¬ Spec.round_trip 2147483647 5 10.
Proof.
  unfold Spec.round_trip. intros H.
  specialize (H ltac:(lia) ltac:(lia) ltac:(lia)).
  vm_compute in H. discriminate.
Qed.

(** C3, amended: on 32-bit inputs [start >= 0], [length >= 0],
    [0 < capacity] with [start + length] below [2^31], the positions
    denoted by the result, slice or array, are [(start + i) mod capacity]
    for [i] in [[0, length)], in that order. *)
Theorem round_trip_positions start length capacity :
  0 <= start → 0 <= length → 0 < capacity <= Int32.max_signed →
  start + length <= Int32.max_signed →
  CircularIndexes.positions (CircularIndexes.get_indexes start length capacity)
    = Some (window start length capacity).
Proof.
  intros Hs Hl Hc Hsum.
  rewrite CircularIndexesFacts.get_indexes_exact by done.
  destruct (Z.leb_spec (start + length) capacity) as [Hfit|Hwrap]; [|done].
  simpl. f_equal.
  replace (start + length - start) with length by lia.
  by apply seqZ_window.
Qed.

Lemma round_trip_positions_witness :
  CircularIndexes.positions (CircularIndexes.get_indexes 2 3 10) = Some [2; 3; 4] ∧
  CircularIndexes.positions (CircularIndexes.get_indexes 8 5 10)
    = Some [8; 9; 0; 1; 2].
Proof.
  split.
  - apply (round_trip_positions 2 3 10); [lia|lia|int_consts; lia..].
  - apply (round_trip_positions 8 5 10); [lia|lia|int_consts; lia..].
Defined.

(** ** Validation *)

(** C4, as the specification states it, fails: the capacity is never
    validated.  [get_indexes 0 0 0] passes the only check ([length < 0]),
    finds [end = 0 <= maxsize = 0] and returns the slice [(0, 0, 1)]. *)
Lemma capacity_not_validated : ¬ Spec.rejects_invalid 0 0 0.
Proof.
  unfold Spec.rejects_invalid. intros H.
  destruct H as [msg H]; [lia|]. vm_compute in H. discriminate.
Qed.

(** With a zero capacity and a window that does not fit, the first
    iteration of the loop divides by zero. *)
Lemma capacity_zero_division :
  CircularIndexes.get_indexes 0 5 0 = CircularIndexes.Fault.
Proof. reflexivity. Qed.

(** With a negative capacity the loop runs to its end. *)
Lemma capacity_negative_array :
  CircularIndexes.get_indexes 0 5 (-1) = CircularIndexes.Array [0; 0; 0; 0; 0].
Proof. reflexivity. Qed.

(** C4, amended: a call whose length is a negative 32-bit integer fails
    with ValueError, for every start and every capacity, and hands back
    neither a slice nor an array; [get_indexes 0 (-1) 10] is such a call.
    The capacity is not validated. *)
Theorem negative_length_rejected start length capacity :
  Int32.min_signed <= length < 0 →
  CircularIndexes.get_indexes start length capacity
    = CircularIndexes.ValueError CircularIndexes.length_error ∧
  CircularIndexes.is_output (CircularIndexes.get_indexes start length capacity)
    = false ∧
  CircularIndexes.positions (CircularIndexes.get_indexes start length capacity)
    = None.
Proof.
  intros Hlen.
  assert (CircularIndexes.get_indexes start length capacity
            = CircularIndexes.ValueError CircularIndexes.length_error) as ->.
  { unfold CircularIndexes.get_indexes, CircularIndexes.get_indexes_body.
    rewrite (CircularIndexesFacts.parse_I_id length) by (int_consts; lia).
    by decide_tests. }
  done.
Qed.

Lemma negative_length_rejected_witness :
  CircularIndexes.get_indexes 0 (-1) 10
    = CircularIndexes.ValueError CircularIndexes.length_error.
Proof.
  apply (negative_length_rejected 0 (-1) 10). int_consts. lia.
Defined.

(** ** Bounds *)

(** C5, as the specification states it, fails at the edge
    [start = capacity], [length = 0]: [get_indexes 10 0 10] returns the
    slice [(10, 10, 1)] whose begin is not below the capacity. *)
Lemma begin_reaches_capacity : ¬ Spec.in_bounds 10 0 10.
Proof.
  unfold Spec.in_bounds. intros H.
  specialize (H ltac:(lia) ltac:(lia) ltac:(lia)).
  vm_compute in H. destruct H as [[_ H] _]. discriminate.
Qed.

(** C5, amended: on 32-bit inputs [start >= 0], [length >= 0],
    [0 < capacity] with [start + length] below [2^31], the call succeeds;
    every element of a returned array lies in [[0, capacity)]; a returned
    slice has [0 <= begin <= end <= capacity] and step 1, with
    [begin < capacity] as soon as [length > 0] or [start < capacity]
    (begin equals the capacity only for [start = capacity],
    [length = 0]). *)
Theorem output_in_bounds start length capacity :
  0 <= start → 0 <= length → 0 < capacity <= Int32.max_signed →
  start + length <= Int32.max_signed →
  match CircularIndexes.get_indexes start length capacity with
  | CircularIndexes.Slice begin stop step =>
      0 <= begin <= stop ∧ stop <= capacity ∧ step = 1 ∧
      (0 < length ∨ start < capacity → begin < capacity)
  | CircularIndexes.Array data => Forall (λ v, 0 <= v < capacity) data
  | CircularIndexes.ValueError _ | CircularIndexes.Fault => False
  end.
Proof.
  intros Hs Hl Hc Hsum.
  rewrite CircularIndexesFacts.get_indexes_exact by done.
  destruct (Z.leb_spec (start + length) capacity) as [Hfit|Hwrap].
  - repeat split; lia.
  - apply window_in_bounds. lia.
Qed.

Lemma output_in_bounds_witness :
  Forall (λ v, 0 <= v < 10) [8; 9; 0; 1; 2] ∧
  (0 <= 2 <= 5 ∧ 5 <= 10 ∧ 1 = 1 ∧ (0 < 3 ∨ 2 < 10 → 2 < 10)).
Proof.
  split.
  - apply (output_in_bounds 8 5 10); [lia|lia|int_consts; lia..].
  - apply (output_in_bounds 2 3 10); [lia|lia|int_consts; lia..].
Defined.

(** ** The empty window *)

(** C6, as the specification states it, fails: [get_indexes 7 0 5] finds
    [end = 7 > maxsize = 5] and returns an empty array, not the slice
    [(2, 2, 1)]. *)
Lemma empty_window_array : ¬ Spec.empty_window 7 5.
Proof.
  unfold Spec.empty_window. intros H.
  specialize (H ltac:(lia) ltac:(lia)). vm_compute in H. discriminate.
Qed.

(** C6, amended: for a 32-bit [start >= 0] and [0 < capacity], a call
    with [length = 0] returns the degenerate slice [(start, start, 1)] when
    [start <= capacity], which is [(effective_start, effective_start, 1)]
    when [start < capacity], and an empty array when [start > capacity];
    [get_indexes 0 0 5] is the slice [(0, 0, 1)]. *)
Theorem empty_window_result :
  (∀ start capacity,
     0 <= start <= Int32.max_signed → 0 < capacity <= Int32.max_signed →
     (start < capacity →
      CircularIndexes.get_indexes start 0 capacity =
        CircularIndexes.Slice (effective_start start capacity)
          (effective_start start capacity) 1) ∧
     (start <= capacity →
      CircularIndexes.get_indexes start 0 capacity
        = CircularIndexes.Slice start start 1) ∧
     (capacity < start →
      CircularIndexes.get_indexes start 0 capacity = CircularIndexes.Array [])) ∧
  CircularIndexes.get_indexes 0 0 5 = CircularIndexes.Slice 0 0 1.
Proof.
  split; [|reflexivity].
  intros start capacity Hs Hc.
  rewrite CircularIndexesFacts.get_indexes_exact by lia.
  rewrite Z.add_0_r. repeat split; intros Hcmp; decide_tests; [|done..].
  unfold effective_start. by rewrite Z.mod_small by lia.
Qed.

Lemma empty_window_result_witness :
  CircularIndexes.get_indexes 3 0 5 = CircularIndexes.Slice 3 3 1 ∧
  CircularIndexes.get_indexes 5 0 5 = CircularIndexes.Slice 5 5 1 ∧
  CircularIndexes.get_indexes 7 0 5 = CircularIndexes.Array [].
Proof.
  destruct (proj1 empty_window_result 3 5) as (H3 & _ & _);
    [int_consts; lia..|].
  destruct (proj1 empty_window_result 5 5) as (_ & H5 & _);
    [int_consts; lia..|].
  destruct (proj1 empty_window_result 7 5) as (_ & _ & H7);
    [int_consts; lia..|].
  split; [|split].
  - apply H3. lia.
  - apply H5. lia.
  - apply H7. lia.
Defined.

(** ** Determinism and the interpreter state *)

(** Every run of [get_indexes], read as a relation over the statements
    of the body with the new array holding arbitrary memory, ends in one
    and the same result, the one the functional model computes. *)
Lemma get_indexes_deterministic start length maxsize :
  CircularIndexes.get_indexes_returns start length maxsize
    (CircularIndexes.get_indexes start length maxsize) ∧
  ∀ r1 r2,
    CircularIndexes.get_indexes_returns start length maxsize r1 →
    CircularIndexes.get_indexes_returns start length maxsize r2 →
    r1 = r2.
Proof.
  pose proof (CircularIndexesFacts.parse_I_in_range length) as [_ Hmax].
  split.
  - by apply CircularIndexesFacts.get_indexes_body_returns.
  - intros r1 r2 H1 H2.
    apply CircularIndexesFacts.returns_get_indexes_body in H1, H2; [|done..].
    congruence.
Qed.





(** ** 32-bit arithmetic *)

(** C10: in src/src/circular_indexes.c the arguments are read modulo
    [2^32] (a multiple of [2^32] added to any of them changes nothing),
    [end = start + length] is the 32-bit signed sum, and the choice
    between slice and array is the test of that wrapped [end] against
    [maxsize].  When the exact sum reaches [2^31] the wrapped [end] is
    negative and the slice [(start, start + length - 2^32, 1)] is returned
    for every positive [maxsize]; e.g. [(2^31 - 1, 5, 10)] yields the slice
    [(2147483647, -2147483644, 1)]. *)
Theorem decision_in_32_bit_arithmetic :
  (∀ start length maxsize a b c,
     CircularIndexes.get_indexes (start + a * Int32.modulus)
       (length + b * Int32.modulus) (maxsize + c * Int32.modulus)
     = CircularIndexes.get_indexes start length maxsize) ∧
  (∀ start length maxsize,
     Int32.in_range start → Int32.in_range length → Int32.in_range maxsize →
     0 <= length →
     CircularIndexes.is_slice (CircularIndexes.get_indexes start length maxsize)
       = (Int32.wrap (start + length) <=? maxsize) ∧
     (Int32.wrap (start + length) <= maxsize →
      CircularIndexes.get_indexes start length maxsize
        = CircularIndexes.Slice start (Int32.wrap (start + length)) 1)) ∧
  (∀ start length maxsize,
     0 <= start <= Int32.max_signed → 0 <= length <= Int32.max_signed →
     0 < maxsize <= Int32.max_signed →
     Int32.max_signed < start + length →
     CircularIndexes.get_indexes start length maxsize
       = CircularIndexes.Slice start (start + length - Int32.modulus) 1) ∧
  CircularIndexes.get_indexes 2147483647 5 10
    = CircularIndexes.Slice 2147483647 (-2147483644) 1.
Proof.
  split; [|split; [|split; [|reflexivity]]].
  - intros. unfold CircularIndexes.get_indexes.
    by rewrite !CircularIndexesFacts.parse_I_periodic.
  - intros start length maxsize Hs Hl Hm Hlen.
    unfold CircularIndexes.get_indexes.
    rewrite !CircularIndexesFacts.parse_I_id by done.
    unfold CircularIndexes.get_indexes_body, CircularIndexes.PyArray_SimpleNew.
    rewrite (proj2 (Z.ltb_ge _ _)) by lia. fold (Int32.add start length).
    destruct (Z.leb_spec (Int32.add start length) maxsize) as [Hle|Hgt].
    + done.
    + split; [|lia]. by destruct (CircularIndexes.fill_loop _ _ _ _ _).
  - intros start length maxsize Hs Hl Hm Hover.
    unfold CircularIndexes.get_indexes.
    rewrite !CircularIndexesFacts.parse_I_id by (int_consts; lia).
    unfold CircularIndexes.get_indexes_body, Int32.add.
    rewrite (proj2 (Z.ltb_ge _ _)) by lia.
    rewrite int32_wrap_high by (int_consts; lia).
    rewrite (proj2 (Z.leb_le _ _)) by (int_consts; lia). done.
Qed.

Lemma decision_in_32_bit_arithmetic_witness :
  CircularIndexes.get_indexes 2147483640 10 7
    = CircularIndexes.Slice 2147483640 (-2147483646) 1.
Proof.
  destruct decision_in_32_bit_arithmetic as (_ & _ & Hhigh & _).
  apply (Hhigh 2147483640 10 7); int_consts; lia.
Defined.

(** The wrapping path and the round trip also fail without any overflow
    of the sum: the argument [2^32] is read as 0, so [(2^32, 5, 10)] is
    answered like [(0, 5, 10)], although [2^32 mod 10 = 6]. *)
Lemma wrap_path_masked_start : ¬ Spec.wrap_path 4294967296 5 10.
Proof.
  unfold Spec.wrap_path, effective_start. intros H.
  specialize (H ltac:(lia) ltac:(lia) ltac:(lia) ltac:(vm_compute; reflexivity)).
  vm_compute in H. discriminate.
Qed.

Lemma round_trip_masked_start : ¬ Spec.round_trip 4294967296 5 10.
Proof.
  unfold Spec.round_trip. intros H.
  specialize (H ltac:(lia) ltac:(lia) ltac:(lia)).
  vm_compute in H. discriminate.
Qed.

(** Beyond the signed 32-bit range the bounds fail as well: the slice
    returned for [(2^31 - 1, 5, 10)] begins at [2147483647]. *)
Lemma in_bounds_overflow : ¬ Spec.in_bounds 2147483647 5 10.
Proof.
  unfold Spec.in_bounds. intros H.
  specialize (H ltac:(lia) ltac:(lia) ltac:(lia)).
  vm_compute in H. destruct H as [[_ H] _]. discriminate.
Qed.

(** ** Worked examples *)

Example no_wrap : CircularIndexes.get_indexes 2 3 10 = CircularIndexes.Slice 2 5 1.
Proof. reflexivity. Qed.

Example whole_buffer :
  CircularIndexes.get_indexes 0 10 10 = CircularIndexes.Slice 0 10 1.
Proof. reflexivity. Qed.

Example multi_wrap :
  CircularIndexes.get_indexes 0 23 10
    = CircularIndexes.Array
        [0; 1; 2; 3; 4; 5; 6; 7; 8; 9; 0; 1; 2; 3; 4; 5; 6; 7; 8; 9; 0; 1; 2].
Proof. reflexivity. Qed.

Example capacity_one :
  CircularIndexes.get_indexes 0 3 1 = CircularIndexes.Array [0; 0; 0].
Proof. reflexivity. Qed.

Example tuple_wrap :
  NpRwBuffer.get_indexes (NpRwBuffer.clear_frame 100) 8 5 10
    = NpRwBuffer.Tuple [Some 8; Some 9; Some 10; Some 11; Some 12].
Proof. reflexivity. Qed.

(** A negative start is not sign-extended: over a zero upper half [-3]
    reads as [4294967293], whose remainder by 10 is 3. *)
Example tuple_negative_start :
  NpRwBuffer.get_indexes (NpRwBuffer.clear_frame 100) (-3) 4 10
    = NpRwBuffer.Tuple [Some 3; Some 4; Some 5; Some 6].
Proof. reflexivity. Qed.

(** Neither is a negative length: [-1] reads as [4294967295] slots. *)
Example tuple_negative_length :
  NpRwBuffer.get_indexes (NpRwBuffer.clear_frame 100) 0 (-1) 10
    = NpRwBuffer.Null NpRwBuffer.MemoryError "here: 2".
Proof. reflexivity. Qed.

(** Residue above the length asks for a tuple of [2^32 + 5] slots. *)
Example tuple_length_residue :
  NpRwBuffer.get_indexes
    {| NpRwBuffer.start_residue := 0; NpRwBuffer.length_residue := 1;
       NpRwBuffer.maxsize_residue := 0;
       NpRwBuffer.tuple_fits := λ n, n <=? 100 |} 8 5 10
    = NpRwBuffer.Null NpRwBuffer.MemoryError "here: 2".
Proof. reflexivity. Qed.

(** Residue above the start changes the items: [(2^32 + 8) % 10 = 4]. *)
Example tuple_start_residue :
  NpRwBuffer.get_indexes
    {| NpRwBuffer.start_residue := 1; NpRwBuffer.length_residue := 0;
       NpRwBuffer.maxsize_residue := 0;
       NpRwBuffer.tuple_fits := λ n, n <=? 100 |} 8 5 10
    = NpRwBuffer.Tuple [Some 4; Some 5; Some 6; Some 7; Some 8].
Proof. reflexivity. Qed.

Example tuple_argument_too_large :
  NpRwBuffer.get_indexes (NpRwBuffer.clear_frame 100) 4294967296 1 10
    = NpRwBuffer.Null NpRwBuffer.OverflowError "err: 1".
Proof. reflexivity. Qed.

Example tuple_zero_maxsize :
  NpRwBuffer.get_indexes (NpRwBuffer.clear_frame 100) 8 5 0 = NpRwBuffer.Fault.
Proof. reflexivity. Qed.

(** * Further properties of [get_indexes] *)

(** ** Shared facts *)

Module WindowFacts.
Import CircularIndexes.

(** The positions of a call whose 32-bit sum does not overflow. *)
Lemma positions_window start length maxsize :
  0 <= start → 0 <= length → 0 < maxsize <= Int32.max_signed →
  start + length <= Int32.max_signed →
  positions (get_indexes start length maxsize)
    = Some (window start length maxsize).
Proof.
  intros Hs Hl Hm Hsum.
  rewrite CircularIndexesFacts.get_indexes_exact by done.
  destruct (Z.leb_spec (start + length) maxsize) as [Hfit|Hwrap]; [|done].
  simpl. replace (start + length - start) with length by lia.
  by rewrite (seqZ_window start length maxsize).
Qed.

Lemma window_app start l1 l2 capacity :
  0 <= l1 → 0 <= l2 →
  window start (l1 + l2) capacity
    = window start l1 capacity ++ window (start + l1) l2 capacity.
Proof.
  intros H1 H2. unfold window.
  rewrite seqZ_app, fmap_app by done. f_equal.
  replace (0 + l1) with (l1 + 0) by lia.
  rewrite <- fmap_add_seqZ, <- list_fmap_compose.
  apply list_fmap_ext. intros _ i _. simpl. f_equal. lia.
Qed.

Lemma window_shift start k length capacity :
  window (start + k * capacity) length capacity = window start length capacity.
Proof.
  unfold window. apply list_fmap_ext. intros _ i _. simpl.
  replace (start + k * capacity + i) with (start + i + k * capacity) by lia.
  apply Z_mod_plus_full.
Qed.

(** Two offsets less than a capacity apart land on different positions. *)
Lemma mod_add_inj start capacity i j :
  0 < capacity → 0 <= i < capacity → 0 <= j < capacity →
  (start + i) `mod` capacity = (start + j) `mod` capacity → i = j.
Proof.
  intros Hc Hi Hj Heq.
  assert ((i - j) `mod` capacity = 0) as Hdiff.
  { replace (i - j) with ((start + i) - (start + j)) by lia.
    rewrite Zminus_mod, Heq, Z.sub_diag. apply Z.mod_0_l. lia. }
  apply Z.mod_divide in Hdiff; [|lia]. destruct Hdiff as [q Hq].
  assert (q = 0) by nia. lia.
Qed.

Lemma window_NoDup start length capacity :
  0 < capacity → length <= capacity → NoDup (window start length capacity).
Proof.
  intros Hc Hl. unfold window.
  apply NoDup_fmap_2_strong; [|apply NoDup_seqZ].
  intros i j Hi%elem_of_seqZ Hj%elem_of_seqZ Heq.
  apply (mod_add_inj start capacity); [lia..|done].
Qed.

Lemma elem_of_window_full start capacity p :
  0 < capacity → p ∈ window start capacity capacity ↔ 0 <= p < capacity.
Proof.
  intros Hc. unfold window. rewrite list_elem_of_fmap. split.
  - intros (i & -> & _). apply Z.mod_pos_bound. lia.
  - intros Hp. exists ((p - start) `mod` capacity). split.
    + rewrite Zplus_mod_idemp_r.
      replace (start + (p - start)) with p by lia.
      symmetry. apply Z.mod_small. lia.
    + apply elem_of_seqZ. pose proof (Z.mod_pos_bound (p - start) capacity). lia.
Qed.

End WindowFacts.

(** ** Windows of a ring *)

(** X1: moving the start forward by whole turns of the ring does not
    change the positions addressed, though the form of the result may
    change from slice to array. *)
Theorem positions_shift_by_capacity start k length capacity :
  0 <= start → 0 <= k → 0 <= length → 0 < capacity <= Int32.max_signed →
  start + k * capacity + length <= Int32.max_signed →
  CircularIndexes.positions
    (CircularIndexes.get_indexes (start + k * capacity) length capacity)
  = CircularIndexes.positions
      (CircularIndexes.get_indexes start length capacity).
Proof.
  intros Hs Hk Hl Hc Hsum.
  rewrite !WindowFacts.positions_window by nia.
  by rewrite WindowFacts.window_shift.
Qed.

Lemma positions_shift_by_capacity_witness :
  CircularIndexes.positions (CircularIndexes.get_indexes 32 3 10)
    = CircularIndexes.positions (CircularIndexes.get_indexes 2 3 10) ∧
  CircularIndexes.get_indexes 32 3 10 = CircularIndexes.Array [2; 3; 4] ∧
  CircularIndexes.get_indexes 2 3 10 = CircularIndexes.Slice 2 5 1.
Proof.
  split; [|by split].
  apply (positions_shift_by_capacity 2 3 3 10); [lia..|int_consts; lia|int_consts; lia].
Defined.

(** X2: two calls on consecutive windows address, one after the other,
    the positions of the single call on the joined window. *)
Theorem positions_concat start l1 l2 capacity :
  0 <= start → 0 <= l1 → 0 <= l2 → 0 < capacity <= Int32.max_signed →
  start + l1 + l2 <= Int32.max_signed →
  ∃ p1 p2,
    CircularIndexes.positions (CircularIndexes.get_indexes start l1 capacity)
      = Some p1 ∧
    CircularIndexes.positions
      (CircularIndexes.get_indexes (start + l1) l2 capacity) = Some p2 ∧
    CircularIndexes.positions
      (CircularIndexes.get_indexes start (l1 + l2) capacity) = Some (p1 ++ p2).
Proof.
  intros Hs H1 H2 Hc Hsum.
  exists (window start l1 capacity), (window (start + l1) l2 capacity).
  rewrite !WindowFacts.positions_window by lia.
  by rewrite WindowFacts.window_app.
Qed.

Lemma positions_concat_witness :
  ∃ p1 p2,
    CircularIndexes.positions (CircularIndexes.get_indexes 6 3 10) = Some p1 ∧
    CircularIndexes.positions (CircularIndexes.get_indexes (6 + 3) 4 10) = Some p2 ∧
    CircularIndexes.positions (CircularIndexes.get_indexes 6 (3 + 4) 10)
      = Some (p1 ++ p2).
Proof.
  apply (positions_concat 6 3 4 10); [lia..|int_consts; lia|int_consts; lia].
Defined.

(** X3: a window longer than the ring repeats itself with the period of
    the ring: the position at offset [i + capacity] is the position at
    offset [i]. *)
Theorem positions_periodic start length capacity :
  0 <= start → 0 <= length → 0 < capacity <= Int32.max_signed →
  start + length <= Int32.max_signed →
  ∃ p,
    CircularIndexes.positions (CircularIndexes.get_indexes start length capacity)
      = Some p ∧
    ∀ i : nat, Z.of_nat i + capacity < length →
      p !! (i + Z.to_nat capacity)%nat = p !! i.
Proof.
  intros Hs Hl Hc Hsum. eexists. split; [by apply WindowFacts.positions_window|].
  intros i Hi. rewrite !window_lookup by lia. f_equal.
  replace (start + Z.of_nat (i + Z.to_nat capacity))
    with (start + Z.of_nat i + 1 * capacity) by lia.
  apply Z_mod_plus_full.
Qed.

Lemma positions_periodic_witness :
  ∃ p,
    CircularIndexes.positions (CircularIndexes.get_indexes 0 23 10) = Some p ∧
    ∀ i : nat, Z.of_nat i + 10 < 23 → p !! (i + Z.to_nat 10)%nat = p !! i.
Proof.
  apply (positions_periodic 0 23 10); [lia..|int_consts; lia|int_consts; lia].
Defined.

(** X4: a window no longer than the ring never addresses a position
    twice, in either form of the result. *)
Theorem positions_no_duplicates start length capacity :
  0 <= start → 0 <= length <= capacity → 0 < capacity <= Int32.max_signed →
  start + length <= Int32.max_signed →
  ∃ p,
    CircularIndexes.positions (CircularIndexes.get_indexes start length capacity)
      = Some p ∧
    NoDup p.
Proof.
  intros Hs Hl Hc Hsum. eexists. split; [apply WindowFacts.positions_window; lia|].
  apply WindowFacts.window_NoDup; lia.
Qed.

Lemma positions_no_duplicates_witness :
  ∃ p,
    CircularIndexes.positions (CircularIndexes.get_indexes 8 5 10) = Some p ∧
    NoDup p.
Proof.
  apply (positions_no_duplicates 8 5 10); [lia..|int_consts; lia|int_consts; lia].
Defined.

(** X5: a window as long as the ring addresses every position of the
    ring exactly once, wherever it starts. *)
Theorem positions_cover_ring start capacity :
  0 <= start → 0 < capacity <= Int32.max_signed →
  start + capacity <= Int32.max_signed →
  ∃ p,
    CircularIndexes.positions
      (CircularIndexes.get_indexes start capacity capacity) = Some p ∧
    p ≡ₚ seqZ 0 capacity.
Proof.
  intros Hs Hc Hsum. eexists. split; [apply WindowFacts.positions_window; lia|].
  apply NoDup_Permutation.
  - apply WindowFacts.window_NoDup; lia.
  - apply NoDup_seqZ.
  - intros p. rewrite WindowFacts.elem_of_window_full, elem_of_seqZ by lia. lia.
Qed.

Lemma positions_cover_ring_witness :
  ∃ p,
    CircularIndexes.positions (CircularIndexes.get_indexes 7 10 10) = Some p ∧
    p ≡ₚ seqZ 0 10.
Proof.
  apply (positions_cover_ring 7 10); [lia|int_consts; lia|int_consts; lia].
Defined.

(** ** The array path on arbitrary arguments *)

Module ArrayFacts.
Import CircularIndexes.

(** Past the two tests, the body is the loop on a new array. *)
Lemma get_indexes_body_array_path start length maxsize :
  0 <= length <= Int32.max_signed → maxsize < Int32.add start length →
  get_indexes_body start length maxsize =
    match mapM (cell start maxsize) (seqZ 0 length) with
    | Some data => Array data
    | None => Fault
    end.
Proof.
  intros Hl Hend. unfold get_indexes_body, PyArray_SimpleNew. decide_tests.
  by rewrite CircularIndexesFacts.fill_loop_any_buffer
    by (apply length_replicate || lia).
Qed.

Lemma cell_Some start maxsize i v :
  cell start maxsize i = Some v → v = Z.rem (Int32.wrap (start + i)) maxsize.
Proof.
  unfold cell, Int32.rem, Int32.add. intros H.
  destruct (maxsize =? 0); [done|].
  destruct (_ && _); [done|]. by injection H.
Qed.

Lemma cell_defined start maxsize i :
  maxsize ≠ 0 → maxsize ≠ -1 →
  cell start maxsize i = Some (Z.rem (Int32.wrap (start + i)) maxsize).
Proof.
  intros H0 H1. unfold cell, Int32.rem, Int32.add.
  destruct (Z.eqb_spec maxsize 0); [done|].
  destruct (Z.eqb_spec maxsize (-1)); [done|]. by rewrite andb_false_r.
Qed.

(** C's remainder by a positive divisor, read as a Python index: a
    negative value counts from the end. *)
Lemma rem_as_index a b :
  0 < b →
  - b < Z.rem a b < b ∧
  (if Z.rem a b <? 0 then Z.rem a b + b else Z.rem a b) = a `mod` b.
Proof.
  intros Hb. pose proof (Z.rem_bound_abs a b ltac:(lia)) as Habs.
  split; [lia|].
  destruct (Z.ltb_spec (Z.rem a b) 0) as [Hneg|Hpos].
  - apply (Z.mod_unique_pos _ _ (a ÷ b - 1)); [lia|].
    pose proof (Z.quot_rem a b ltac:(lia)). lia.
  - apply (Z.mod_unique_pos _ _ (a ÷ b)); [lia|].
    apply Z.quot_rem. lia.
Qed.

End ArrayFacts.

(** X6: whatever the three arguments, a returned array has exactly as
    many elements as the length read from the second argument, and its
    [i]-th element is the C remainder of the 32-bit sum [start + i] by
    [maxsize]. *)
Theorem array_elements start length maxsize data :
  CircularIndexes.get_indexes start length maxsize
    = CircularIndexes.Array data →
  Datatypes.length data = Z.to_nat (CircularIndexes.parse_I length) ∧
  ∀ i : nat, Z.of_nat i < CircularIndexes.parse_I length →
    data !! i
      = Some (Z.rem (Int32.wrap (CircularIndexes.parse_I start + Z.of_nat i))
                (CircularIndexes.parse_I maxsize)).
Proof.
  unfold CircularIndexes.get_indexes.
  pose proof (CircularIndexesFacts.parse_I_in_range length) as [_ Hmax].
  set (S := CircularIndexes.parse_I start).
  set (L := CircularIndexes.parse_I length) in *.
  set (M := CircularIndexes.parse_I maxsize).
  intros H.
  assert (0 <= L) as Hl.
  { destruct (Z.ltb_spec L 0) as [Hn|]; [|done].
    unfold CircularIndexes.get_indexes_body in H.
    by rewrite (proj2 (Z.ltb_lt _ _) Hn) in H. }
  assert (M < Int32.add S L) as Hend.
  { destruct (Z.leb_spec (Int32.add S L) M) as [Hle|]; [|done].
    unfold CircularIndexes.get_indexes_body in H.
    rewrite (proj2 (Z.ltb_ge _ _) Hl) in H.
    by rewrite (proj2 (Z.leb_le _ _) Hle) in H. }
  rewrite ArrayFacts.get_indexes_body_array_path in H by done.
  destruct (mapM _ _) as [cells|] eqn:Hcells; [|done].
  injection H as ->. apply mapM_Some_1 in Hcells. split.
  - rewrite <- (Forall2_length _ _ _ Hcells). apply length_seqZ.
  - intros i Hi.
    destruct (Forall2_lookup_l _ _ _ i (0 + Z.of_nat i) Hcells) as (v & -> & Hv).
    { by apply lookup_seqZ_lt. }
    f_equal. by apply ArrayFacts.cell_Some in Hv.
Qed.

Lemma array_elements_witness :
  Datatypes.length [-1; 0; -1; 0; 1; 0] = Z.to_nat (CircularIndexes.parse_I 6) ∧
  ∀ i : nat, Z.of_nat i < CircularIndexes.parse_I 6 →
    [-1; 0; -1; 0; 1; 0] !! i
      = Some (Z.rem (Int32.wrap (CircularIndexes.parse_I (-3) + Z.of_nat i))
                (CircularIndexes.parse_I 2)).
Proof.
  apply (array_elements (-3) 6 2). reflexivity.
Defined.

(** X7: a call whose length is read as non-negative and whose [maxsize]
    is read as neither 0 nor -1 always hands back a slice or an array:
    no remainder in the loop is undefined and neither error is raised. *)
Theorem defined_remainder_succeeds start length maxsize :
  0 <= CircularIndexes.parse_I length →
  CircularIndexes.parse_I maxsize ≠ 0 →
  CircularIndexes.parse_I maxsize ≠ -1 →
  CircularIndexes.is_output
    (CircularIndexes.get_indexes start length maxsize) = true.
Proof.
  unfold CircularIndexes.get_indexes.
  pose proof (CircularIndexesFacts.parse_I_in_range length) as [_ Hmax].
  set (S := CircularIndexes.parse_I start).
  set (L := CircularIndexes.parse_I length) in *.
  set (M := CircularIndexes.parse_I maxsize).
  intros Hl H0 H1.
  destruct (Z.leb_spec (Int32.add S L) M) as [Hle|Hgt].
  - unfold CircularIndexes.get_indexes_body. by decide_tests.
  - rewrite ArrayFacts.get_indexes_body_array_path by done.
    rewrite (mapM_total _ (λ i, Z.rem (Int32.wrap (S + i)) M)); [done|].
    apply Forall_seqZ. intros i _. by apply ArrayFacts.cell_defined.
Qed.

Lemma defined_remainder_succeeds_witness :
  CircularIndexes.is_output (CircularIndexes.get_indexes (-3) 6 (-2)) = true.
Proof.
  apply (defined_remainder_succeeds (-3) 6 (-2)); vm_compute; congruence.
Defined.


(** X9: a negative start is accepted.  On the array path, without
    overflow and with a positive [maxsize], every element lies strictly
    between [-maxsize] and [maxsize], and read as a Python index into an
    array of [maxsize] cells (a negative index counts from the end) it is
    the position [(start + i) mod maxsize]. *)
Theorem negative_start_elements start length maxsize :
  Int32.in_range start → 0 <= length <= Int32.max_signed →
  0 < maxsize <= Int32.max_signed →
  start + length <= Int32.max_signed → maxsize < start + length →
  ∃ data,
    CircularIndexes.get_indexes start length maxsize
      = CircularIndexes.Array data ∧
    Datatypes.length data = Z.to_nat length ∧
    ∀ i : nat, Z.of_nat i < length →
      ∃ v, data !! i = Some v ∧ - maxsize < v < maxsize ∧
           (if v <? 0 then v + maxsize else v)
             = (start + Z.of_nat i) `mod` maxsize.
Proof.
  intros Hs Hl Hm Hsum Hwrap.
  exists ((λ i, Z.rem (start + i) maxsize) <$> seqZ 0 length).
  split; [|split].
  - unfold CircularIndexes.get_indexes.
    rewrite !CircularIndexesFacts.parse_I_id by (int_consts; lia).
    rewrite ArrayFacts.get_indexes_body_array_path;
      [|int_consts; lia|rewrite int32_add_id by (int_consts; lia); lia].
    rewrite (mapM_total _ (λ i, Z.rem (start + i) maxsize)); [done|].
    apply Forall_seqZ. intros i Hi.
    rewrite ArrayFacts.cell_defined by lia.
    by rewrite int32_wrap_id by (int_consts; lia).
  - by rewrite length_fmap, length_seqZ.
  - intros i Hi. eexists. split.
    + by rewrite list_lookup_fmap, lookup_seqZ_lt.
    + simpl. apply ArrayFacts.rem_as_index. lia.
Qed.

Lemma negative_start_elements_witness :
  ∃ data,
    CircularIndexes.get_indexes (-3) 6 2 = CircularIndexes.Array data ∧
    Datatypes.length data = 6%nat ∧
    ∀ i : nat, Z.of_nat i < 6 →
      ∃ v, data !! i = Some v ∧ - 2 < v < 2 ∧
           (if v <? 0 then v + 2 else v) = (-3 + Z.of_nat i) `mod` 2.
Proof.
  apply (negative_start_elements (-3) 6 2); int_consts; lia.
Defined.

(** X10: the slice is a shortcut, not a different answer.  Where the
    slice is returned for a non-negative start, the allocation and loop
    that the [return] skips would have built exactly the positions the
    slice denotes. *)
Theorem slice_is_shortcut start length maxsize :
  0 <= start → 0 <= length → 0 < maxsize <= Int32.max_signed →
  start + length <= maxsize →
  CircularIndexes.get_indexes start length maxsize
    = CircularIndexes.Slice start (start + length) 1 ∧
  CircularIndexes.PyArray_SimpleNew length
    ≫= CircularIndexes.fill_loop start maxsize (Z.to_nat length) 0
  = CircularIndexes.positions
      (CircularIndexes.get_indexes start length maxsize).
Proof.
  intros Hs Hl Hm Hfit. split.
  - rewrite CircularIndexesFacts.get_indexes_exact by lia. by decide_tests.
  - rewrite WindowFacts.positions_window by lia.
    unfold CircularIndexes.PyArray_SimpleNew. decide_tests. simpl.
    rewrite CircularIndexesFacts.fill_loop_any_buffer
      by (apply length_replicate || lia).
    apply CircularIndexesFacts.cells_window; lia.
Qed.

Lemma slice_is_shortcut_witness :
  CircularIndexes.get_indexes 2 3 10 = CircularIndexes.Slice 2 5 1 ∧
  CircularIndexes.PyArray_SimpleNew 3 ≫= CircularIndexes.fill_loop 2 10 3 0
  = CircularIndexes.positions (CircularIndexes.get_indexes 2 3 10).
Proof.
  apply (slice_is_shortcut 2 3 10); [lia|lia|int_consts; lia|lia].
Defined.

(** ** The tuple implementation *)

Module TupleFacts.
Import NpRwBuffer.

(** The remainder of two [long long] values, when defined, is smaller
    than the divisor. *)
Lemma rem_fits a b :
  Int64.min_signed <= b <= Int64.max_signed → b ≠ 0 →
  Int64.min_signed < Z.rem a b <= Int64.max_signed.
Proof.
  intros Hb Hnz. pose proof (Z.rem_bound_abs a b Hnz). int_consts. lia.
Qed.

(** [get_indexes] in terms of the values the locals hold, without
    overflow of the sums. *)
Lemma get_indexes_held f start length maxsize :
  Int32.in_range start → Int32.in_range length → Int32.in_range maxsize →
  let S := store_int (start_residue f) start in
  let L := store_int (length_residue f) length in
  let M := store_int (maxsize_residue f) maxsize in
  0 <= L → tuple_fits f L = true →
  M ≠ 0 → ¬ (S = Int64.min_signed ∧ M = -1) →
  Z.rem S M + L <= Int64.max_signed + 1 →
  get_indexes f start length maxsize =
    Tuple ((λ i, Some (Z.rem S M + i)) <$> seqZ 0 L).
Proof.
  intros Hs Hl Hm S L M HL Hfits HM Hmin Hsum.
  rewrite NpRwBufferFacts.get_indexes_in_range by done. fold S L M.
  pose proof (NpRwBufferFacts.store_int_fits (length_residue f) length) as HLr.
  pose proof (NpRwBufferFacts.store_int_fits (maxsize_residue f) maxsize) as HMr.
  fold L in HLr. fold M in HMr.
  destruct (Int64.rem S M) as [r|] eqn:Hrem;
    [|apply NpRwBufferFacts.int64_rem_None in Hrem; tauto].
  pose proof (NpRwBufferFacts.int64_rem_Some _ _ _ Hrem) as ->.
  rewrite (NpRwBufferFacts.get_indexes_body_tuple _ _ _ Hrem) by (done || lia).
  f_equal. apply Forall_fmap_ext, Forall_seqZ. intros i Hi. simpl. f_equal.
  pose proof (rem_fits S M HMr HM).
  apply int64_add_id. lia.
Qed.

(** On zeroed stack, with non-negative arguments, the locals hold the
    arguments. *)
Lemma get_indexes_clear f start length maxsize :
  start_residue f = 0 → length_residue f = 0 → maxsize_residue f = 0 →
  0 <= start <= Int32.max_signed → 0 <= length <= Int32.max_signed →
  0 < maxsize <= Int32.max_signed → tuple_fits f length = true →
  get_indexes f start length maxsize =
    Tuple ((λ i, Some (start `mod` maxsize + i)) <$> seqZ 0 length).
Proof.
  intros Hrs Hrl Hrm Hs Hl Hm Hfits.
  pose proof (Z.mod_pos_bound start maxsize ltac:(lia)) as Hr.
  rewrite get_indexes_held; rewrite ?Hrs, ?Hrl, ?Hrm;
    rewrite ?NpRwBufferFacts.store_int_clear by lia;
    rewrite ?Z.rem_mod_nonneg by lia.
  all: try done; try (int_consts; lia).
Qed.

End TupleFacts.


(** With arguments that do fit, the claim still depends on what the
    stack held: a negative start is not sign-extended, and residue above
    the length changes the size of the tuple. *)
Lemma tuple_negative_start_unextended :
  ¬ Spec.tuple_always (NpRwBuffer.clear_frame 100) (-3) 4 10.
Proof.
  intros Hclaim.
  destruct (Hclaim ltac:(lia) ltac:(lia)) as (items & Htuple & _ & Hitems).
  injection Htuple as <-. specialize (Hitems 0%nat ltac:(lia)). done.
Qed.

Lemma tuple_length_from_residue :
  ¬ Spec.tuple_always
      {| NpRwBuffer.start_residue := 0; NpRwBuffer.length_residue := 1;
         NpRwBuffer.maxsize_residue := 0;
         NpRwBuffer.tuple_fits := λ n, n <=? 100 |} 8 5 10.
Proof.
  intros Hclaim.
  by destruct (Hclaim ltac:(lia) ltac:(lia)) as (items & Htuple & _).
Qed.



(** ** The two implementations *)

(** The last cell before the end of the ring and the first cell after
    it, inside a window that crosses the end. *)
Lemma window_crossing start length capacity :
  0 <= start → 0 < capacity → capacity < start `mod` capacity + length →
  ∃ k : nat,
    Z.of_nat k + 1 < length ∧
    window start length capacity !! k = Some (capacity - 1) ∧
    window start length capacity !! S k = Some 0.
Proof.
  intros Hs Hc Hcross.
  pose proof (Z.mod_pos_bound start capacity Hc) as Hr.
  pose proof (Z.div_mod start capacity ltac:(lia)) as Hdiv.
  exists (Z.to_nat (capacity - 1 - start `mod` capacity)).
  split; [lia|]. rewrite !window_lookup by lia. split; f_equal.
  - symmetry. apply (Z.mod_unique_pos _ _ (start `div` capacity)); lia.
  - symmetry. apply (Z.mod_unique_pos _ _ (start `div` capacity + 1)); lia.
Qed.

(** C7: the two implementations do not denote the same positions.  As
    soon as the window crosses the end of the ring, the result of
    src/src/circular_indexes.c steps from [maxsize - 1] to [0], while the
    items of the tuple of src/np_rw_buffer/_circular_indexes.c, whatever
    its locals hold, are consecutive 64-bit sums and never do: in no
    frame does the tuple denote the window.  At [(8, 5, 10)] the window
    is [8, 9, 0, 1, 2]; on zeroed stack the tuple is
    [8, 9, 10, 11, 12], three positions beyond the array it is meant to
    index. *)
Theorem tuple_indexes_not_wrapped :
  (∀ f start length maxsize,
     0 <= start → 0 <= length → 0 < maxsize <= Int32.max_signed →
     start + length <= Int32.max_signed →
     maxsize < start `mod` maxsize + length →
     NpRwBuffer.positions (NpRwBuffer.get_indexes f start length maxsize)
       ≠ CircularIndexes.positions
           (CircularIndexes.get_indexes start length maxsize)) ∧
  CircularIndexes.positions (CircularIndexes.get_indexes 8 5 10)
    = Some [8; 9; 0; 1; 2] ∧
  window 8 5 10 = [8; 9; 0; 1; 2] ∧
  NpRwBuffer.positions
    (NpRwBuffer.get_indexes (NpRwBuffer.clear_frame 100) 8 5 10)
    = Some [8; 9; 10; 11; 12].
Proof.
  split; [|by repeat split].
  intros f start length maxsize Hs Hl Hm Hsum Hcross Hsame.
  rewrite WindowFacts.positions_window in Hsame by done.
  rewrite NpRwBufferFacts.get_indexes_in_range in Hsame by (int_consts; lia).
  destruct (window_crossing start length maxsize) as (k & Hk & Hlast & Hfirst);
    [lia..|].
  apply NpRwBufferFacts.get_indexes_body_positions in Hsame;
    [|apply NpRwBufferFacts.store_int_fits].
  destruct Hsame as [Hnil|(r & _ & Hrun)].
  { by rewrite Hnil in Hlast. }
  assert (Datatypes.length (window start length maxsize) = Z.to_nat length)
    as Hlen by apply window_length.
  rewrite Hrun, length_fmap, length_seqZ in Hlen.
  rewrite Hrun, list_lookup_fmap, lookup_seqZ_lt in Hlast, Hfirst by lia.
  simpl in Hlast, Hfirst.
  injection Hlast as Hlast. injection Hfirst as Hfirst.
  revert Hlast Hfirst. int_consts. intros Hlast Hfirst.
  Z.div_mod_to_equations. lia.
Qed.

Lemma tuple_indexes_not_wrapped_witness :
  NpRwBuffer.positions
    (NpRwBuffer.get_indexes (NpRwBuffer.clear_frame 100) 8 5 10)
  ≠ CircularIndexes.positions (CircularIndexes.get_indexes 8 5 10).
Proof.
  apply (proj1 tuple_indexes_not_wrapped (NpRwBuffer.clear_frame 100) 8 5 10);
    [lia|lia|int_consts; lia|int_consts; lia|vm_compute; reflexivity].
Defined.

(** ** Outcomes of the tuple implementation *)

(** X11: what the tuple implementation does is decided by the values
    [S], [L], [M] its locals hold after the parse.  An argument that
    does not fit a C [int] is an OverflowError (after printing
    [err: 1]); otherwise a negative [L] is a SystemError and an [L] the
    allocator has no room for a MemoryError (both after printing
    [here: 2]), [L = 0] gives the empty tuple even for [M = 0], and an
    undefined remainder with [L > 0] is undefined behaviour.  A tuple is
    returned exactly in the remaining case.  A negative length argument
    is not rejected as such: over a zero upper half it is held as
    [length + 2^32]. *)
Theorem tuple_outcomes f start length maxsize S L M :
  S = NpRwBuffer.store_int (NpRwBuffer.start_residue f) start →
  L = NpRwBuffer.store_int (NpRwBuffer.length_residue f) length →
  M = NpRwBuffer.store_int (NpRwBuffer.maxsize_residue f) maxsize →
  (¬ (Int32.in_range start ∧ Int32.in_range length ∧ Int32.in_range maxsize) →
   NpRwBuffer.get_indexes f start length maxsize
     = NpRwBuffer.Null NpRwBuffer.OverflowError "err: 1") ∧
  (Int32.in_range start → Int32.in_range length → Int32.in_range maxsize →
   (L < 0 →
    NpRwBuffer.get_indexes f start length maxsize
      = NpRwBuffer.Null NpRwBuffer.SystemError "here: 2") ∧
   (0 <= L → NpRwBuffer.tuple_fits f L = false →
    NpRwBuffer.get_indexes f start length maxsize
      = NpRwBuffer.Null NpRwBuffer.MemoryError "here: 2") ∧
   (L = 0 → NpRwBuffer.tuple_fits f L = true →
    NpRwBuffer.get_indexes f start length maxsize = NpRwBuffer.Tuple []) ∧
   (0 < L → NpRwBuffer.tuple_fits f L = true →
    M = 0 ∨ (S = Int64.min_signed ∧ M = -1) →
    NpRwBuffer.get_indexes f start length maxsize = NpRwBuffer.Fault)) ∧
  ((∃ items, NpRwBuffer.get_indexes f start length maxsize
               = NpRwBuffer.Tuple items) ↔
   Int32.in_range start ∧ Int32.in_range length ∧ Int32.in_range maxsize ∧
   0 <= L ∧ NpRwBuffer.tuple_fits f L = true ∧
   (L = 0 ∨ (M ≠ 0 ∧ ¬ (S = Int64.min_signed ∧ M = -1)))) ∧
  (Int32.min_signed <= length < 0 → NpRwBuffer.length_residue f = 0 →
   L = length + Int32.modulus).
Proof.
  intros -> -> ->.
  set (S := NpRwBuffer.store_int (NpRwBuffer.start_residue f) start).
  set (L := NpRwBuffer.store_int (NpRwBuffer.length_residue f) length).
  set (M := NpRwBuffer.store_int (NpRwBuffer.maxsize_residue f) maxsize).
  pose proof (NpRwBufferFacts.store_int_fits
                (NpRwBuffer.length_residue f) length) as HLr. fold L in HLr.
  assert (Int32.in_range start → Int32.in_range length →
          Int32.in_range maxsize →
          (L < 0 →
           NpRwBuffer.get_indexes f start length maxsize
             = NpRwBuffer.Null NpRwBuffer.SystemError "here: 2") ∧
          (0 <= L → NpRwBuffer.tuple_fits f L = false →
           NpRwBuffer.get_indexes f start length maxsize
             = NpRwBuffer.Null NpRwBuffer.MemoryError "here: 2") ∧
          (L = 0 → NpRwBuffer.tuple_fits f L = true →
           NpRwBuffer.get_indexes f start length maxsize = NpRwBuffer.Tuple []) ∧
          (0 < L → NpRwBuffer.tuple_fits f L = true →
           M = 0 ∨ (S = Int64.min_signed ∧ M = -1) →
           NpRwBuffer.get_indexes f start length maxsize = NpRwBuffer.Fault))
    as Hbody.
  { intros Hs Hl Hm. rewrite NpRwBufferFacts.get_indexes_in_range by done.
    fold S L M. repeat split.
    - apply NpRwBufferFacts.get_indexes_body_negative.
    - apply NpRwBufferFacts.get_indexes_body_no_room.
    - intros HL Hfits. rewrite HL in Hfits |- *.
      by apply NpRwBufferFacts.get_indexes_body_empty.
    - intros HL Hfits Hrem.
      apply NpRwBufferFacts.get_indexes_body_undefined; [done..|].
      by apply NpRwBufferFacts.int64_rem_None. }
  split; [apply NpRwBufferFacts.get_indexes_overflow|].
  split; [exact Hbody|]. split.
  - split.
    + intros [items Htuple].
      destruct (NpRwBufferFacts.in_range_dec start) as [Hs|Hs];
        [|rewrite NpRwBufferFacts.get_indexes_overflow in Htuple by tauto; done].
      destruct (NpRwBufferFacts.in_range_dec length) as [Hl|Hl];
        [|rewrite NpRwBufferFacts.get_indexes_overflow in Htuple by tauto; done].
      destruct (NpRwBufferFacts.in_range_dec maxsize) as [Hm|Hm];
        [|rewrite NpRwBufferFacts.get_indexes_overflow in Htuple by tauto; done].
      destruct (Hbody Hs Hl Hm) as (Hneg & Hroom & _ & Hundef).
      destruct (Z.ltb_spec L 0) as [Hn|HL].
      { rewrite Hneg in Htuple; done. }
      destruct (NpRwBuffer.tuple_fits f L) eqn:Hfits;
        [|rewrite Hroom in Htuple; done].
      repeat split; try apply Hs; try apply Hl; try apply Hm; try done.
      destruct (decide (L = 0)) as [|Hpos]; [by left|right].
      destruct (NpRwBufferFacts.int64_rem_None S M) as [_ Hnone].
      destruct (decide (M = 0)) as [HM|HM].
      { rewrite Hundef in Htuple by (lia || tauto). done. }
      split; [done|]. intros Hmin.
      rewrite Hundef in Htuple by (lia || tauto). done.
    + intros (Hs & Hl & Hm & HL & Hfits & [HL0|[HM Hmin]]).
      * eexists. by apply Hbody.
      * destruct (Int64.rem S M) as [r|] eqn:Hrem;
          [|apply NpRwBufferFacts.int64_rem_None in Hrem; tauto].
        eexists. rewrite NpRwBufferFacts.get_indexes_in_range by done.
        fold S L M.
        apply (NpRwBufferFacts.get_indexes_body_tuple _ _ _ Hrem); [lia|done].
  - intros Hneg Hres. unfold L. rewrite Hres.
    by apply NpRwBufferFacts.store_int_negative.
Qed.

Lemma tuple_outcomes_witness :
  NpRwBuffer.get_indexes (NpRwBuffer.clear_frame 100) 4294967296 1 10
    = NpRwBuffer.Null NpRwBuffer.OverflowError "err: 1" ∧
  NpRwBuffer.get_indexes (NpRwBuffer.clear_frame 100) 0 (-1) 10
    = NpRwBuffer.Null NpRwBuffer.MemoryError "here: 2" ∧
  NpRwBuffer.get_indexes (NpRwBuffer.clear_frame 100) 8 0 0
    = NpRwBuffer.Tuple [] ∧
  NpRwBuffer.get_indexes (NpRwBuffer.clear_frame 100) 8 5 0
    = NpRwBuffer.Fault ∧
  4294967295 = -1 + Int32.modulus.
Proof.
  split; [|split; [|split; [|split]]].
  - apply (proj1 (tuple_outcomes (NpRwBuffer.clear_frame 100) 4294967296 1 10
                    _ _ _ eq_refl eq_refl eq_refl)).
    int_consts. lia.
  - apply (proj1 (proj2 (tuple_outcomes (NpRwBuffer.clear_frame 100) 0 (-1) 10
                           0 4294967295 10 eq_refl eq_refl eq_refl)));
      try (int_consts; lia); try reflexivity.
  - apply (proj1 (proj2 (tuple_outcomes (NpRwBuffer.clear_frame 100) 8 0 0
                           8 0 0 eq_refl eq_refl eq_refl)));
      try (int_consts; lia); try reflexivity.
  - apply (proj1 (proj2 (tuple_outcomes (NpRwBuffer.clear_frame 100) 8 5 0
                           8 5 0 eq_refl eq_refl eq_refl)));
      try (int_consts; lia); try reflexivity.
  - apply (proj2 (proj2 (proj2
             (tuple_outcomes (NpRwBuffer.clear_frame 100) 0 (-1) 10
                0 4294967295 10 eq_refl eq_refl eq_refl))));
      [int_consts; lia|reflexivity].
Defined.

(** ** Where the two implementations meet *)

(** X12: on zeroed stack, with room for the tuple, and on non-negative
    32-bit arguments without overflow, the tuple of
    src/np_rw_buffer/_circular_indexes.c and the result of
    src/src/circular_indexes.c denote the same positions exactly when the
    window, laid out from [start mod maxsize], does not cross [maxsize]
    (or is empty). *)
Theorem implementations_agree_iff f start length maxsize :
  NpRwBuffer.start_residue f = 0 → NpRwBuffer.length_residue f = 0 →
  NpRwBuffer.maxsize_residue f = 0 →
  NpRwBuffer.tuple_fits f length = true →
  0 <= start → 0 <= length → 0 < maxsize <= Int32.max_signed →
  start + length <= Int32.max_signed →
  NpRwBuffer.positions (NpRwBuffer.get_indexes f start length maxsize)
    = CircularIndexes.positions
        (CircularIndexes.get_indexes start length maxsize) ↔
  length = 0 ∨ start `mod` maxsize + length <= maxsize.
Proof.
  intros Hrs Hrl Hrm Hfits Hs Hl Hm Hsum.
  rewrite WindowFacts.positions_window by lia.
  rewrite TupleFacts.get_indexes_clear by (done || lia).
  rewrite NpRwBufferFacts.positions_tuple.
  pose proof (Z.mod_pos_bound start maxsize ltac:(lia)) as Hr.
  unfold window. split.
  - intros Heq. destruct (decide (length = 0)) as [|Hpos]; [by left|right].
    injection Heq as Heq.
    apply (f_equal (λ l, l !! Z.to_nat (length - 1))) in Heq.
    rewrite !list_lookup_fmap, lookup_seqZ_lt in Heq by lia.
    simpl in Heq. injection Heq as Heq.
    pose proof (Z.mod_pos_bound
                  (start + (0 + Z.of_nat (Z.to_nat (length - 1)))) maxsize
                  ltac:(lia)).
    lia.
  - intros Hfit. f_equal. apply Forall_fmap_ext, Forall_seqZ. intros i Hi.
    rewrite <- (Zplus_mod_idemp_l start). symmetry. apply Z.mod_small. lia.
Qed.

Lemma implementations_agree_iff_witness :
  (NpRwBuffer.positions
     (NpRwBuffer.get_indexes (NpRwBuffer.clear_frame 100) 12 3 10)
     = CircularIndexes.positions (CircularIndexes.get_indexes 12 3 10) ↔
   3 = 0 ∨ 12 `mod` 10 + 3 <= 10) ∧
  (NpRwBuffer.positions
     (NpRwBuffer.get_indexes (NpRwBuffer.clear_frame 100) 8 5 10)
     = CircularIndexes.positions (CircularIndexes.get_indexes 8 5 10) ↔
   5 = 0 ∨ 8 `mod` 10 + 5 <= 10).
Proof.
  split.
  - apply (implementations_agree_iff (NpRwBuffer.clear_frame 100) 12 3 10);
      try reflexivity; try lia; int_consts; lia.
  - apply (implementations_agree_iff (NpRwBuffer.clear_frame 100) 8 5 10);
      try reflexivity; try lia; int_consts; lia.
Defined.

(** ** How often a position is addressed *)

Module CountFacts.

(** In a list without duplicates a value occurs once or not at all. *)
Lemma occurrences_NoDup (p : Z) (l : list Z) :
  NoDup l →
  Datatypes.length (filter (p =.) l) = if decide (p ∈ l) then 1%nat else 0%nat.
Proof.
  induction 1 as [|x l Hx _ IH].
  - by rewrite decide_False by apply not_elem_of_nil.
  - destruct (decide (p = x)) as [->|Hne].
    + rewrite filter_cons_True by done. simpl.
      rewrite IH, (decide_False _ _ Hx).
      by rewrite decide_True by (apply elem_of_cons; by left).
    + rewrite filter_cons_False by done. rewrite IH.
      destruct (decide (p ∈ l)) as [Hin|Hnin].
      * by rewrite decide_True by (apply elem_of_cons; by right).
      * rewrite decide_False; [done|].
        by intros [?|?]%elem_of_cons.
Qed.

(** Every whole turn of the ring adds one occurrence of each position. *)
Lemma occurrences_turns start capacity r p (q : nat) :
  0 < capacity → 0 <= r → 0 <= p < capacity →
  Datatypes.length (filter (p =.) (window start (Z.of_nat q * capacity + r) capacity))
    = (q + Datatypes.length (filter (p =.) (window start r capacity)))%nat.
Proof.
  intros Hc Hr Hp. induction q as [|q IH].
  - by rewrite Z.mul_0_l, Z.add_0_l.
  - replace (Z.of_nat (S q) * capacity + r)
      with (capacity + (Z.of_nat q * capacity + r)) by lia.
    rewrite WindowFacts.window_app by nia.
    rewrite <- (Z.mul_1_l capacity) at 3.
    rewrite WindowFacts.window_shift.
    rewrite filter_app, List.length_app, IH.
    rewrite occurrences_NoDup by (apply WindowFacts.window_NoDup; lia).
    rewrite decide_True; [done|].
    by apply WindowFacts.elem_of_window_full.
Qed.

End CountFacts.

(** X13: in a window of any length every position of the ring is
    addressed [length / capacity] times, rounded down or up; in
    particular exactly [length / capacity] times when the length is a
    multiple of the capacity. *)
Theorem positions_multiplicity start length capacity p :
  0 <= start → 0 <= length → 0 < capacity <= Int32.max_signed →
  start + length <= Int32.max_signed → 0 <= p < capacity →
  ∃ ps,
    CircularIndexes.positions (CircularIndexes.get_indexes start length capacity)
      = Some ps ∧
    length `div` capacity
      <= Z.of_nat (Datatypes.length (filter (p =.) ps))
      <= (length + capacity - 1) `div` capacity.
Proof.
  intros Hs Hl Hc Hsum Hp.
  eexists. split; [by apply WindowFacts.positions_window|].
  pose proof (Z.div_mod length capacity ltac:(lia)) as Hdiv.
  pose proof (Z.mod_pos_bound length capacity ltac:(lia)) as Hr.
  pose proof (Z.div_pos length capacity ltac:(lia) ltac:(lia)) as Hq.
  set (q := length `div` capacity) in *.
  set (r := length `mod` capacity) in *.
  assert (window start length capacity
            = window start (Z.of_nat (Z.to_nat q) * capacity + r) capacity)
    as -> by (f_equal; lia).
  rewrite CountFacts.occurrences_turns by lia.
  rewrite (CountFacts.occurrences_NoDup p (window start r capacity))
    by (apply WindowFacts.window_NoDup; lia).
  destruct (decide (p ∈ window start r capacity)) as [Hin|Hnin].
  - assert (0 < r) as Hpos.
    { destruct (decide (r = 0)) as [Hz|]; [|lia].
      rewrite Hz in Hin. by apply elem_of_nil in Hin. }
    split; [lia|].
    transitivity (q + 1); [lia|].
    apply Z.div_le_lower_bound; [lia|]. nia.
  - split; [lia|].
    transitivity q; [lia|].
    apply Z.div_le_lower_bound; [lia|]. nia.
Qed.

Lemma positions_multiplicity_witness :
  ∃ ps,
    CircularIndexes.positions (CircularIndexes.get_indexes 0 23 10) = Some ps ∧
    23 `div` 10
      <= Z.of_nat (Datatypes.length (filter (2 =.) ps))
      <= (23 + 10 - 1) `div` 10.
Proof.
  apply (positions_multiplicity 0 23 10 2); [lia..|int_consts; lia|int_consts; lia|lia].
Defined.
